(** * pymanopt.solvers.stochastic_gradient: the [StochasticGradient.solve] loop

    A shallow embedding of [src/pymanopt/solvers/stochastic_gradient.py].

    The file under study is incomplete in two places, and the embedding keeps
    both visible instead of repairing them:

    - line 77, [stepsize, x = # TODO ...], is an assignment with no right-hand
      side, so the module does not parse;
    - line 55 reads the name [linesearch], which neither [solve] nor the module
      binds.

    A [completion] says what stands in those two places; [as_written] leaves
    both empty.  [import_module] is what importing the module yields, and
    [solve_body] is the body of [solve], line by line, for a given right-hand
    side of line 77 and a given binding (or none) of [linesearch]. *)

From Stdlib Require Import ZArith List String Ascii Bool Lia DecimalString.
Import ListNotations.
Open Scope string_scope.
Open Scope Z_scope.

(** ** Python string literals and [%]-formatting *)

Definition tab : string := String (ascii_of_nat 9) EmptyString.
Definition newline : string := String (ascii_of_nat 10) EmptyString.
Definition backslash : ascii := ascii_of_nat 92.

(** The value of a Python string literal whose source text (between the
    quotes) is [s]: the escapes the file uses are [\t], and [\n] and [\\] are
    read alike; any other character stands for itself. *)
Fixpoint py_literal (s : string) : string :=
  match s with
  | EmptyString => EmptyString
  | String c rest =>
      if Ascii.eqb c backslash then
        match rest with
        | String "t" rest' => String (ascii_of_nat 9) (py_literal rest')
        | String "n" rest' => String (ascii_of_nat 10) (py_literal rest')
        | String d rest' =>
            if Ascii.eqb d backslash then String backslash (py_literal rest')
            else String c (py_literal rest)
        | EmptyString => String c EmptyString
        end
      else String c (py_literal rest)
  end.

(** [str(n)] of a Python int. *)
Definition py_str_int (n : Z) : string := NilZero.string_of_int (Z.to_int n).

Fixpoint spaces (n : nat) : string :=
  match n with
  | O => EmptyString
  | S n' => String " " (spaces n')
  end.

(** Right-justify [s] in a field of [width] characters (the default of a
    [%] conversion with a width and no [-] flag). *)
Definition rjust (width : nat) (s : string) : string :=
  spaces (width - String.length s) ++ s.

Definition is_digit (c : ascii) : bool :=
  let n := nat_of_ascii c in (48 <=? n)%nat && (n <=? 57)%nat.

Fixpoint read_nat (acc : nat) (s : string) : nat * string :=
  match s with
  | String c rest =>
      if is_digit c then read_nat (10 * acc + (nat_of_ascii c - 48))%nat rest
      else (acc, s)
  | EmptyString => (acc, s)
  end.

(** One conversion specifier [%[+][width][.precision]type]. *)
Record conv : Type := mkConv {
  conv_plus : bool;
  conv_width : nat;
  conv_prec : option nat;
  conv_type : ascii
}.

Inductive fmt_item : Type :=
| Lit (c : ascii)
| Conv (cv : conv).

Definition read_plus (s : string) : bool * string :=
  match s with
  | String "+" rest => (true, rest)
  | _ => (false, s)
  end.

Definition read_prec (s : string) : option nat * string :=
  match s with
  | String "." rest => let (p, rest') := read_nat 0 rest in (Some p, rest')
  | _ => (None, s)
  end.

(** Reads the specifier that follows a [%]. *)
Definition read_conv (s : string) : option (conv * string) :=
  let (pl, s1) := read_plus s in
  let (w, s2) := read_nat 0 s1 in
  let (p, s3) := read_prec s2 in
  match s3 with
  | String t rest => Some (mkConv pl w p t, rest)
  | EmptyString => None
  end.

Fixpoint parse_fmt (fuel : nat) (s : string) : option (list fmt_item) :=
  match fuel with
  | O => None
  | S fuel' =>
      match s with
      | EmptyString => Some []
      | String "%" rest =>
          match read_conv rest with
          | Some (cv, rest') =>
              option_map (cons (Conv cv)) (parse_fmt fuel' rest')
          | None => None
          end
      | String c rest => option_map (cons (Lit c)) (parse_fmt fuel' rest)
      end
  end.

(** ** Results, exceptions and the state the body threads *)

(** The values the solver handles without looking inside them, and the
    operations on them that the file takes from Python and its libraries. *)
Class Values : Type := {
  (** points of the manifold *)
  Point : Type;
  (** tangent vectors *)
  Tangent : Type;
  (** Python floats *)
  float : Type;
  (** clock readings *)
  Time : Type;
  (** the object the name [linesearch] would denote *)
  Obj : Type;
  (** the exceptions collaborators raise *)
  E : Type;
  (** the state of everything outside [solve]: problem, manifold, clock *)
  W : Type;
  (** unary minus on a tangent vector, [-grad] *)
  neg : Tangent -> Tangent;
  (** [time.time()] *)
  time_time : W -> Time * W;
  (** [elapsed now t0]: the time from [t0] to [now] *)
  elapsed : Time -> Time -> Time;
  (** the text of a float under [%e]: [float_sci plus prec f] is scientific
      notation with [prec] digits after the point, and a leading [+] on
      values without a minus sign when [plus] is set *)
  float_sci : bool -> nat -> float -> string
}.

Section Solve.

Context {V : Values}.

Inductive pyval : Type :=
| VInt (n : Z)
| VFloat (f : float).

Definition with_plus (plus : bool) (n : Z) : string :=
  if plus && (0 <=? n) then "+" ++ py_str_int n else py_str_int n.

(** One conversion applied to one argument; [None] is Python's [TypeError]
    or [ValueError] for a specifier the argument does not fit. *)
Definition render_conv (cv : conv) (v : pyval) : option string :=
  match v with
  | VInt n =>
      if Ascii.eqb (conv_type cv) "d" then
        Some (rjust (conv_width cv) (with_plus (conv_plus cv) n))
      else None
  | VFloat f =>
      if Ascii.eqb (conv_type cv) "e" then
        Some (rjust (conv_width cv)
                (float_sci (conv_plus cv)
                   (match conv_prec cv with Some p => p | None => 6%nat end) f))
      else None
  end.

Fixpoint render (items : list fmt_item) (args : list pyval) : option string :=
  match items with
  | [] => match args with [] => Some EmptyString | _ :: _ => None end
  | Lit c :: items' => option_map (String c) (render items' args)
  | Conv cv :: items' =>
      match args with
      | [] => None
      | v :: args' =>
          match render_conv cv v, render items' args' with
          | Some s, Some r => Some (s ++ r)
          | _, _ => None
          end
      end
  end.

(** [fmt % args], where [fmt] is the source text of the format literal. *)
Definition py_format (fmt : string) (args : list pyval) : option string :=
  let f := py_literal fmt in
  match parse_fmt (S (String.length f)) f with
  | Some items => render items args
  | None => None
  end.

Inductive exn : Type :=
| SyntaxError
| NameError (name : string)
| TypeError
| Propagated (e : E).

(** How far a computation got: a value, an exception, or still inside the
    [while True] loop when the fuel ran out. *)
Inductive res (A : Type) : Type :=
| Ok (a : A)
| Exc (e : exn)
| Running.
Arguments Ok {A} a.
Arguments Exc {A} e.
Arguments Running {A}.

(** *** The log of the [Solver] base class *)

Record IterationRecord : Type := mkIterationRecord {
  rec_iteration : Z;
  rec_x : Point;
  rec_cost : float;
  rec_extra : list (string * float)
}.

Record TerminalRecord : Type := mkTerminalRecord {
  fin_x : Point;
  fin_cost : float;
  fin_reason : option string;
  fin_time : Time;
  fin_stepsize : float;
  fin_gradnorm : float;
  fin_iteration : Z
}.

Record OptLog : Type := mkOptLog {
  log_extraiterfields : list string;
  log_solverparams : list (string * Obj);
  log_iterations : list IterationRecord;
  log_final : option TerminalRecord
}.

(** *** Collaborators *)

Record Manifold : Type := mkManifold {
  rand : W -> (E + Point) * W;
  norm : Point -> Tangent -> W -> (E + float) * W
}.

Record Problem : Type := mkProblem {
  manifold : Manifold;
  verbosity : Z;
  cost : Point -> W -> (E + float) * W;
  grad : Point -> W -> (E + Tangent) * W
}.

(** What [solve] reads of [self]: the attribute [_logverbosity] and the
    method [_check_stopping_criterion(time0, stepsize=, gradnorm=, iter=)],
    whose result is [None] or a reason text. *)
Record Solver : Type := mkSolver {
  _logverbosity : Z;
  _check_stopping_criterion :
    Time -> float -> float -> Z -> W -> (E + option string) * W
}.

(** The local variables of [solve] that are bound when line 77 is reached.
    [l_stepsize] is the step size of the previous iteration, unbound in the
    first one. *)
Record Locals : Type := mkLocals {
  l_x : Point;
  l_iter : Z;
  l_time0 : Time;
  l_cost : float;
  l_grad : Tangent;
  l_gradnorm : float;
  l_desc_dir : Tangent;
  l_stepsize : option float
}.

(** A right-hand side for line 77: an expression over [self], [problem] and
    the locals, evaluated for a pair [(stepsize, x)]. *)
Definition Rhs : Type :=
  Solver -> Problem -> Locals -> W -> (E + (float * Point)) * W.

(** The calls [solve] itself makes, in the order it makes them, each with
    what came back. *)
Inductive Event : Type :=
| EvRand (r : E + Point)
| EvTime (t : Time)
| EvPrint (s : string)
| EvCost (x : Point) (r : E + float)
| EvGrad (x : Point) (r : E + Tangent)
| EvNorm (x : Point) (g : Tangent) (r : E + float)
| EvStep (l : Locals) (r : E + (float * Point))
| EvCheck (time0 : Time) (stepsize gradnorm : float) (iter : Z)
          (r : E + option string).

Record St : Type := mkSt {
  world : W;
  optlog : OptLog;
  trace : list Event
}.

Definition M (A : Type) : Type := St -> res A * St.

Definition ret {A} (a : A) : M A := fun st => (Ok a, st).

Definition bind {A B} (m : M A) (k : A -> M B) : M B :=
  fun st =>
    match m st with
    | (Ok a, st') => k a st'
    | (Exc e, st') => (Exc e, st')
    | (Running, st') => (Running, st')
    end.

Definition raise {A} (e : exn) : M A := fun st => (Exc e, st).

Definition out_of_fuel {A} : M A := fun st => (Running, st).

Definition emit (ev : Event) : M unit :=
  fun st => (Ok tt, mkSt (world st) (optlog st) (trace st ++ [ev])).

(** A call into a collaborator: the world moves on, the call is recorded, and
    an exception raised inside it propagates. *)
Definition call {A} (f : W -> (E + A) * W) (ev : E + A -> Event) : M A :=
  fun st =>
    let (r, w') := f (world st) in
    let st' := mkSt w' (optlog st) (trace st ++ [ev r]) in
    match r with
    | inl e => (Exc (Propagated e), st')
    | inr a => (Ok a, st')
    end.

Definition clock : M Time :=
  fun st =>
    let (t, w') := time_time (world st) in
    (Ok t, mkSt w' (optlog st) (trace st ++ [EvTime t])).

Definition print (s : string) : M unit := emit (EvPrint s).

Definition when (b : bool) (m : M unit) : M unit := if b then m else ret tt.

Notation "x <- m ;; k" := (bind m (fun x => k))
  (at level 61, m at next level, right associativity).
Notation "m ;;; k" := (bind m (fun _ => k))
  (at level 61, right associativity).

(** Modelled from the spec: [Solver._start_optlog], of
    [pymanopt/solvers/solver.py], which is not in the sources at hand.  The
    log belongs to one [solve] call, so starting it leaves a log with the
    given fields and parameters and no record. *)
Definition _start_optlog (extraiterfields : list string)
    (solverparams : list (string * Obj)) : M unit :=
  fun st =>
    (Ok tt,
     mkSt (world st) (mkOptLog extraiterfields solverparams [] None)
       (trace st)).

(** Modelled from the spec: [Solver._append_optlog], not in the sources at
    hand.  The log is append-only: the record goes after those already
    there and nothing else changes. *)
Definition _append_optlog (iter : Z) (x : Point) (c : float)
    (extra : list (string * float)) : M unit :=
  fun st =>
    let l := optlog st in
    (Ok tt,
     mkSt (world st)
       (mkOptLog (log_extraiterfields l) (log_solverparams l)
          (log_iterations l ++ [mkIterationRecord iter x c extra])
          (log_final l))
       (trace st)).

(** Modelled from the spec: [Solver._stop_optlog], not in the sources at
    hand.  It is handed the reading [time0] of the clock started before the
    loop and stores the terminal record, whose time is the time elapsed since
    [time0]. *)
Definition _stop_optlog (x : Point) (fx : float) (stop_reason : option string)
    (time0 : Time) (stepsize gradnorm : float) (iter : Z) : M unit :=
  fun st =>
    let (now, w') := time_time (world st) in
    let l := optlog st in
    (Ok tt,
     mkSt w'
       (mkOptLog (log_extraiterfields l) (log_solverparams l)
          (log_iterations l)
          (Some (mkTerminalRecord x fx stop_reason (elapsed now time0)
                   stepsize gradnorm iter)))
       (trace st)).

Definition get_optlog : M OptLog := fun st => (Ok (optlog st), st).

(** The names [solve] assigns (its parameters included), and the names the
    module binds at top level. *)
Definition solve_locals : list string :=
  ["self"; "problem"; "x"; "man"; "verbosity"; "objective"; "gradient";
   "iter"; "time0"; "cost"; "grad"; "gradnorm"; "desc_dir"; "stepsize";
   "stop_reason"].

Definition module_globals : list string :=
  ["print_function"; "division"; "time"; "Solver"; "StochasticGradient"].

(** Reading a name that is neither a local of [solve] nor a global of the
    module: [binding] is what the scopes outside the file give for it. *)
Definition load_name (name : string) (binding : option Obj) : M Obj :=
  match binding with
  | Some v => ret v
  | None => raise (NameError name)
  end.

(** Truth value of what [_check_stopping_criterion] returns: [None] and the
    empty text are false. *)
Definition truthy (r : option string) : bool :=
  match r with
  | None => false
  | Some EmptyString => false
  | Some (String _ _) => true
  end.

Definition reason_text (r : option string) : string :=
  match r with
  | Some s => s
  | None => "None"
  end.

(** What [solve] returns: [x], or [(x, self._optlog)]. *)
Inductive Result : Type :=
| RPoint (x : Point)
| RPair (x : Point) (log : OptLog).

(** The variables the code after the loop reads. *)
Record Exit : Type := mkExit {
  e_x : Point;
  e_stop_reason : option string;
  e_stepsize : float;
  e_gradnorm : float;
  e_iter : Z
}.

Section Body.

Variable line77 : Rhs.
Variable linesearch : option Obj.
Variable self : Solver.
Variable problem : Problem.

(* lines 38-41 *)
Definition man : Manifold := manifold problem.
Definition objective : Point -> W -> (E + float) * W := cost problem.
Definition gradient : Point -> W -> (E + Tangent) * W := grad problem.

(** Lines 62-86: one pass through the body of [while True], entered with the
    current [x] and [iter]; [stepsize] is the step size left by the pass
    before.  The result says whether the pass ended in [break]. *)
Definition iteration (time0 : Time) (x : Point) (iter : Z)
    (stepsize : option float) : M (bool * Exit) :=
  (* lines 62-65 *)
  c <- call (objective x) (EvCost x) ;;
  g <- call (gradient x) (EvGrad x) ;;
  gradnorm <- call (norm man x g) (EvNorm x g) ;;
  let iter := iter + 1 in
  (* lines 67-68 *)
  when (2 <=? verbosity problem)
    (match py_format "%5d\t%+.16e\t%.8e"
             [VInt iter; VFloat c; VFloat gradnorm] with
     | Some line => print line
     | None => raise TypeError
     end) ;;;
  (* lines 70-71 *)
  when (2 <=? _logverbosity self)
    (_append_optlog iter x c [("gradnorm", gradnorm)]) ;;;
  (* line 74 *)
  let desc_dir := neg g in
  (* line 77 *)
  let locals := mkLocals x iter time0 c g gradnorm desc_dir stepsize in
  sx <- call (line77 self problem locals) (EvStep locals) ;;
  let stepsize := fst sx in
  let x := snd sx in
  (* lines 79-80 *)
  stop_reason <- call (_check_stopping_criterion self time0 stepsize gradnorm
                         iter)
                   (EvCheck time0 stepsize gradnorm iter) ;;
  (* lines 82-86 *)
  if truthy stop_reason then
    when (1 <=? verbosity problem)
      (print (reason_text stop_reason) ;;; print "") ;;;
    ret (true, mkExit x stop_reason stepsize gradnorm iter)
  else
    ret (false, mkExit x stop_reason stepsize gradnorm iter).

(** Line 57: [while True], with [fuel] bounding the number of passes. *)
Fixpoint loop (fuel : nat) (time0 : Time) (x : Point) (iter : Z)
    (stepsize : option float) : M Exit :=
  match fuel with
  | O => out_of_fuel
  | S fuel' =>
      r <- iteration time0 x iter stepsize ;;
      if fst r then ret (snd r)
      else
        loop fuel' time0 (e_x (snd r)) (e_iter (snd r))
          (Some (e_stepsize (snd r)))
  end.

(** Lines 88-94. *)
Definition finish (time0 : Time) (ex : Exit) : M Result :=
  let x := e_x ex in
  if _logverbosity self <=? 0 then ret (RPoint x)
  else
    fx <- call (objective x) (EvCost x) ;;
    _stop_optlog x fx (e_stop_reason ex) time0 (e_stepsize ex)
      (e_gradnorm ex) (e_iter ex) ;;;
    log <- get_optlog ;;
    ret (RPair x log).

(** Lines 44-55: everything before the loop.  The result is the starting
    point and [time0]. *)
Definition prologue (x : option Point) : M (Point * Time) :=
  (* lines 44-45 *)
  x <- match x with
       | None => call (rand man) EvRand
       | Some x => ret x
       end ;;
  (* lines 48-49 *)
  time0 <- clock ;;
  (* lines 51-52 *)
  when (2 <=? verbosity problem)
    (print (py_literal " iter\t\t   cost val\t    grad. norm")) ;;;
  (* lines 54-55 *)
  ls <- load_name "linesearch" linesearch ;;
  _start_optlog ["gradnorm"] [("linesearcher", ls)] ;;;
  ret (x, time0).

(** The body of [solve(self, problem, x=None)]. *)
Definition solve_body (x : option Point) (fuel : nat) : M Result :=
  xt <- prologue x ;;
  ex <- loop fuel (snd xt) (fst xt) 0 None ;;
  finish (snd xt) ex.

End Body.

(** What stands in the two places the file leaves open: the right-hand side
    of line 77 and the binding of the name [linesearch]. *)
Record completion : Type := mkCompletion {
  c_line77 : option Rhs;
  c_linesearch : option Obj
}.

(** The file as it is: no right-hand side, no binding. *)
Definition as_written : completion := mkCompletion None None.

(** Importing the module: a file with the assignment of line 77 cut short is
    rejected by the parser; otherwise the class is there and [solve] is the
    body above. *)
Definition import_module (c : completion) :
    exn + (Solver -> Problem -> option Point -> nat -> M Result) :=
  match c_line77 c with
  | None => inl SyntaxError
  | Some rhs => inr (solve_body rhs (c_linesearch c))
  end.

Definition initial (w : W) (log : OptLog) : St := mkSt w log [].

(** ** Reading a trace *)

Definition printed (tr : list Event) : list string :=
  flat_map (fun ev => match ev with EvPrint s => [s] | _ => [] end) tr.

Definition rand_calls (tr : list Event) : list (E + Point) :=
  flat_map (fun ev => match ev with EvRand r => [r] | _ => [] end) tr.

Definition cost_calls (tr : list Event) : list (Point * (E + float)) :=
  flat_map (fun ev => match ev with EvCost x r => [(x, r)] | _ => [] end) tr.

Definition grad_calls (tr : list Event) : list (Point * (E + Tangent)) :=
  flat_map (fun ev => match ev with EvGrad x r => [(x, r)] | _ => [] end) tr.

Definition step_calls (tr : list Event) :
    list (Locals * (E + (float * Point))) :=
  flat_map (fun ev => match ev with EvStep l r => [(l, r)] | _ => [] end) tr.

(** The values of the cost evaluations that returned. *)
Definition costs (tr : list Event) : list float :=
  flat_map (fun ev => match ev with EvCost _ (inr c) => [c] | _ => [] end) tr.

(** The norm evaluations that returned, each with the point it was taken
    at.  A pass through the loop body gets to line 65 exactly when its norm
    evaluation returns, so there is one entry per pass that got that far. *)
Definition norms (tr : list Event) : list (Point * float) :=
  flat_map
    (fun ev => match ev with EvNorm x _ (inr gn) => [(x, gn)] | _ => [] end)
    tr.

Definition passes (tr : list Event) : nat := List.length (norms tr).

(** The first [n] positive integers, as the counter [iter] takes them. *)
Definition counting (n : nat) : list Z := map Z.of_nat (seq 1 n).

(** Per pass that got to line 65: the value of [iter], the cost, and the
    point with the gradient norm. *)
Definition rows (tr : list Event) : list (Z * (float * (Point * float))) :=
  combine (counting (passes tr)) (combine (costs tr) (norms tr)).

(** The text line 68 prints. *)
Definition iter_line (iter : Z) (c gradnorm : float) : string :=
  rjust 5 (py_str_int iter) ++ tab ++ float_sci true 16 c ++ tab
    ++ float_sci false 8 gradnorm.


(** The text line 52 prints. *)
Definition header : string :=
  " iter" ++ tab ++ tab ++ "   cost val" ++ tab ++ "    grad. norm".

(** Every evaluation of line 77 recorded in [tr] saw, as [desc_dir], the
    negation of its [grad], and that [grad] is what the gradient returned at
    its [x]. *)
Definition steepest (tr : list Event) : Prop :=
  forall l r,
    In (l, r) (step_calls tr) ->
    l_desc_dir l = neg (l_grad l)
    /\ In (l_x l, inr (l_grad l)) (grad_calls tr).

(** At the top of the loop the counter is the number of passes made, and
    the cost has been evaluated once per pass. *)
Definition in_step (iter : Z) (tr : list Event) : Prop :=
  Z.of_nat (passes tr) = iter
  /\ List.length (cost_calls tr) = passes tr
  /\ List.length (costs tr) = passes tr.

(** The records in the log are numbered 1, 2, 3, ... and there is one per
    pass that got to line 65. *)
Definition numbered (st : St) : Prop :=
  map rec_iteration (log_iterations (optlog st))
  = counting (passes (trace st)).


(** A recorded call that returned (did not raise). *)
Definition returned {A B : Type} (p : A * (E + B)) : Prop :=
  exists b, snd p = inr b.

(** *** More readings of a trace *)

(** The clock readings of line 49. *)
Definition time_reads (tr : list Event) : list Time :=
  flat_map (fun ev => match ev with EvTime t => [t] | _ => [] end) tr.

(** The arguments of the stopping checks of lines 79-80:
    [(time0, stepsize, gradnorm, iter)]. *)
Definition check_args (tr : list Event) : list (Time * float * float * Z) :=
  flat_map
    (fun ev =>
       match ev with
       | EvCheck t s gn i _ => [(t, s, gn, i)]
       | _ => []
       end) tr.

(** For each evaluation of line 77 that returned: the [time0], [gradnorm]
    and [iter] it saw and the step size it gave. *)
Definition step_args (tr : list Event) : list (Time * float * float * Z) :=
  flat_map
    (fun ev =>
       match ev with
       | EvStep l (inr sx) => [(l_time0 l, fst sx, l_gradnorm l, l_iter l)]
       | _ => []
       end) tr.

(** The points the evaluations of line 77 returned. *)
Definition step_points (tr : list Event) : list Point :=
  flat_map
    (fun ev => match ev with EvStep _ (inr sx) => [snd sx] | _ => [] end) tr.

(** The points the cost was evaluated at. *)
Definition cost_points (tr : list Event) : list Point :=
  map fst (cost_calls tr).

(** The points the gradient was evaluated at. *)
Definition grad_points (tr : list Event) : list Point :=
  map fst (grad_calls tr).

(** The gradient evaluations that returned: point and gradient. *)
Definition grads (tr : list Event) : list (Point * Tangent) :=
  flat_map
    (fun ev => match ev with EvGrad x (inr g) => [(x, g)] | _ => [] end) tr.

(** The arguments of the norm evaluations of line 64. *)
Definition norm_args (tr : list Event) : list (Point * Tangent) :=
  flat_map
    (fun ev => match ev with EvNorm x g _ => [(x, g)] | _ => [] end) tr.

(** What the stopping checks that returned gave. *)
Definition check_results (tr : list Event) : list (option string) :=
  flat_map
    (fun ev => match ev with EvCheck _ _ _ _ (inr r) => [r] | _ => [] end)
    tr.

(** What a recorded call raised, if it raised. *)
Definition raising (ev : Event) : option E :=
  match ev with
  | EvRand (inl e) | EvCost _ (inl e) | EvGrad _ (inl e)
  | EvNorm _ _ (inl e) | EvStep _ (inl e) | EvCheck _ _ _ _ (inl e) =>
      Some e
  | _ => None
  end.

(** Everything the recorded calls raised. *)
Definition raised (tr : list Event) : list E :=
  flat_map
    (fun ev => match raising ev with Some e => [e] | None => [] end) tr.

(** The lines 84-85 print for the check results [rs]. *)
Definition farewells (rs : list (option string)) : list string :=
  flat_map
    (fun r => if truthy r then [reason_text r; ""] else []) rs.

(** The record lines 70-71 append for a row. *)
Definition row_record (r : Z * (float * (Point * float))) : IterationRecord :=
  mkIterationRecord (fst r) (fst (snd (snd r))) (fst (snd r))
    [("gradnorm", snd (snd (snd r)))].

(** [e] was raised by the last recorded call, and nothing else was
    raised. *)
Definition propagated_last (e : E) (tr : list Event) : Prop :=
  raised tr = [e]
  /\ exists pre ev, tr = (pre ++ [ev])%list /\ raising ev = Some e.

(** An end of the loop or of the closing lines, which look up no unbound
    name: either the exception of the last recorded call, or anything else
    with no recorded call having raised. *)
Definition ends_clean {A : Type} (r : res A) (tr : list Event) : Prop :=
  match r with
  | Exc (Propagated e) => propagated_last e tr
  | Exc (NameError _) => False
  | _ => raised tr = []
  end.

Definition falsy (r : option string) : Prop := truthy r = false.

(** The loop is left through [break] by the one check that gave a reason;
    no check before it did. *)
Definition one_reason (r : res Exit) (tr : list Event) : Prop :=
  match r with
  | Ok ex =>
      exists pre,
        check_results tr = (pre ++ [e_stop_reason ex])%list
        /\ Forall falsy pre /\ truthy (e_stop_reason ex) = true
  | _ => Forall falsy (check_results tr)
  end.

(** At the top of the loop with [x], after starting from [x0]: the points
    the cost was evaluated at, followed by [x], are [x0] and then the points
    line 77 returned. *)
Definition chained (x0 x : Point) (tr : list Event) : Prop :=
  (cost_points tr ++ [x])%list = x0 :: step_points tr.

(** The cost was evaluated at [x0] and then at points line 77 returned, in
    the order it returned them. *)
Definition follows_steps (x0 : Point) (tr : list Event) : Prop :=
  cost_points tr
  = firstn (List.length (cost_points tr)) (x0 :: step_points tr).

(** The gradient was evaluated where the cost was, one for one, but for at
    most one last cost evaluation. *)
Definition grad_after_cost (tr : list Event) : Prop :=
  exists extra,
    cost_points tr = (grad_points tr ++ extra)%list
    /\ (List.length extra <= 1)%nat.

(** The clock was read once, as [t0], and every evaluation of line 77 saw
    [t0] as [time0]. *)
Definition timed (t0 : Time) (tr : list Event) : Prop :=
  time_reads tr = [t0]
  /\ forall l r, In (l, r) (step_calls tr) -> l_time0 l = t0.

(** ** One pass and the loop as relations

    [pass] lists the six ways a pass through the loop body can go, each with
    the calls it makes and the state it leaves; [run_loop] chains passes. *)

Section Relations.

Variable line77 : Rhs.
Variable self : Solver.
Variable problem : Problem.

(** The calls of lines 62-64 and the print of line 68. *)
Definition head_events (x : Point) (iter : Z) (c : float) (g : Tangent)
    (gn : float) : list Event :=
  [EvCost x (inr c); EvGrad x (inr g); EvNorm x g (inr gn)]
    ++ (if 2 <=? verbosity problem then [EvPrint (iter_line iter c gn)]
        else []).

(** The log after lines 70-71. *)
Definition logged (l : OptLog) (iter : Z) (x : Point) (c gn : float) :
    OptLog :=
  if 2 <=? _logverbosity self then
    mkOptLog (log_extraiterfields l) (log_solverparams l)
      (log_iterations l ++ [mkIterationRecord iter x c [("gradnorm", gn)]])
      (log_final l)
  else l.

(** The prints of lines 83-85. *)
Definition bye (reason : option string) : list Event :=
  if truthy reason && (1 <=? verbosity problem) then
    [EvPrint (reason_text reason); EvPrint ""]
  else [].

Inductive pass (time0 : Time) (x : Point) (iter : Z) (prev : option float)
    (st : St) : res (bool * Exit) -> St -> Prop :=
| pass_cost_raises e w1 :
    cost problem x (world st) = (inl e, w1) ->
    pass time0 x iter prev st (Exc (Propagated e))
      (mkSt w1 (optlog st) (trace st ++ [EvCost x (inl e)]))
| pass_grad_raises c w1 e w2 :
    cost problem x (world st) = (inr c, w1) ->
    grad problem x w1 = (inl e, w2) ->
    pass time0 x iter prev st (Exc (Propagated e))
      (mkSt w2 (optlog st)
         (trace st ++ [EvCost x (inr c); EvGrad x (inl e)]))
| pass_norm_raises c w1 g w2 e w3 :
    cost problem x (world st) = (inr c, w1) ->
    grad problem x w1 = (inr g, w2) ->
    norm (manifold problem) x g w2 = (inl e, w3) ->
    pass time0 x iter prev st (Exc (Propagated e))
      (mkSt w3 (optlog st)
         (trace st
            ++ [EvCost x (inr c); EvGrad x (inr g); EvNorm x g (inl e)]))
| pass_step_raises c w1 g w2 gn w3 e w4 :
    cost problem x (world st) = (inr c, w1) ->
    grad problem x w1 = (inr g, w2) ->
    norm (manifold problem) x g w2 = (inr gn, w3) ->
    line77 self problem (mkLocals x (iter + 1) time0 c g gn (neg g) prev) w3
      = (inl e, w4) ->
    pass time0 x iter prev st (Exc (Propagated e))
      (mkSt w4 (logged (optlog st) (iter + 1) x c gn)
         (trace st ++ head_events x (iter + 1) c g gn
            ++ [EvStep (mkLocals x (iter + 1) time0 c g gn (neg g) prev)
                  (inl e)]))
| pass_check_raises c w1 g w2 gn w3 s x' w4 e w5 :
    cost problem x (world st) = (inr c, w1) ->
    grad problem x w1 = (inr g, w2) ->
    norm (manifold problem) x g w2 = (inr gn, w3) ->
    line77 self problem (mkLocals x (iter + 1) time0 c g gn (neg g) prev) w3
      = (inr (s, x'), w4) ->
    _check_stopping_criterion self time0 s gn (iter + 1) w4 = (inl e, w5) ->
    pass time0 x iter prev st (Exc (Propagated e))
      (mkSt w5 (logged (optlog st) (iter + 1) x c gn)
         (trace st ++ head_events x (iter + 1) c g gn
            ++ [EvStep (mkLocals x (iter + 1) time0 c g gn (neg g) prev)
                  (inr (s, x'));
                EvCheck time0 s gn (iter + 1) (inl e)]))
| pass_done c w1 g w2 gn w3 s x' w4 reason w5 :
    cost problem x (world st) = (inr c, w1) ->
    grad problem x w1 = (inr g, w2) ->
    norm (manifold problem) x g w2 = (inr gn, w3) ->
    line77 self problem (mkLocals x (iter + 1) time0 c g gn (neg g) prev) w3
      = (inr (s, x'), w4) ->
    _check_stopping_criterion self time0 s gn (iter + 1) w4
      = (inr reason, w5) ->
    pass time0 x iter prev st
      (Ok (truthy reason, mkExit x' reason s gn (iter + 1)))
      (mkSt w5 (logged (optlog st) (iter + 1) x c gn)
         (trace st ++ head_events x (iter + 1) c g gn
            ++ [EvStep (mkLocals x (iter + 1) time0 c g gn (neg g) prev)
                  (inr (s, x'));
                EvCheck time0 s gn (iter + 1) (inr reason)]
            ++ bye reason)).

Inductive run_loop (time0 : Time) :
    nat -> Point -> Z -> option float -> St -> res Exit -> St -> Prop :=
| run_out x iter prev st :
    run_loop time0 O x iter prev st Running st
| run_raise fuel x iter prev st e st' :
    pass time0 x iter prev st (Exc e) st' ->
    run_loop time0 (S fuel) x iter prev st (Exc e) st'
| run_break fuel x iter prev st ex st' :
    pass time0 x iter prev st (Ok (true, ex)) st' ->
    run_loop time0 (S fuel) x iter prev st (Ok ex) st'
| run_again fuel x iter prev st ex st' r st'' :
    pass time0 x iter prev st (Ok (false, ex)) st' ->
    run_loop time0 fuel (e_x ex) (e_iter ex) (Some (e_stepsize ex)) st' r
      st'' ->
    run_loop time0 (S fuel) x iter prev st r st''.

(** The starting point: the argument [x], or what [man.rand()] gives. *)
Definition first_point (x : option Point) (w : W) : (E + Point) * W :=
  match x with
  | None => rand (manifold problem) w
  | Some p => (inr p, w)
  end.

(** The calls of lines 45 and 49 and the print of line 52. *)
Definition start_events (x : option Point) (x0 : Point) (t0 : Time) :
    list Event :=
  (match x with None => [EvRand (inr x0)] | Some _ => [] end)
    ++ [EvTime t0]
    ++ (if 2 <=? verbosity problem then [EvPrint header] else []).

(** The three ways lines 44-55 can go. *)
Inductive begun (linesearch : option Obj) (x : option Point) (st : St) :
    res (Point * Time) -> St -> Prop :=
| begun_rand_raises e w1 :
    x = None ->
    rand (manifold problem) (world st) = (inl e, w1) ->
    begun linesearch x st (Exc (Propagated e))
      (mkSt w1 (optlog st) (trace st ++ [EvRand (inl e)]))
| begun_unbound x0 w1 t0 w2 :
    linesearch = None ->
    first_point x (world st) = (inr x0, w1) ->
    time_time w1 = (t0, w2) ->
    begun linesearch x st (Exc (NameError "linesearch"))
      (mkSt w2 (optlog st) (trace st ++ start_events x x0 t0))
| begun_ready ls x0 w1 t0 w2 :
    linesearch = Some ls ->
    first_point x (world st) = (inr x0, w1) ->
    time_time w1 = (t0, w2) ->
    begun linesearch x st (Ok (x0, t0))
      (mkSt w2 (mkOptLog ["gradnorm"] [("linesearcher", ls)] [] None)
         (trace st ++ start_events x x0 t0)).

(** The log with its terminal record set. *)
Definition closed (l : OptLog) (t : TerminalRecord) : OptLog :=
  mkOptLog (log_extraiterfields l) (log_solverparams l) (log_iterations l)
    (Some t).

(** The three ways lines 88-94 can go. *)
Inductive finished (time0 : Time) (ex : Exit) (st : St) :
    res Result -> St -> Prop :=
| finished_bare :
    _logverbosity self <= 0 ->
    finished time0 ex st (Ok (RPoint (e_x ex))) st
| finished_cost_raises e w1 :
    0 < _logverbosity self ->
    cost problem (e_x ex) (world st) = (inl e, w1) ->
    finished time0 ex st (Exc (Propagated e))
      (mkSt w1 (optlog st) (trace st ++ [EvCost (e_x ex) (inl e)]))
| finished_logged fx w1 now w2 :
    0 < _logverbosity self ->
    cost problem (e_x ex) (world st) = (inr fx, w1) ->
    time_time w1 = (now, w2) ->
    finished time0 ex st
      (Ok (RPair (e_x ex)
             (closed (optlog st)
                (mkTerminalRecord (e_x ex) fx (e_stop_reason ex)
                   (elapsed now time0) (e_stepsize ex) (e_gradnorm ex)
                   (e_iter ex)))))
      (mkSt w2
         (closed (optlog st)
            (mkTerminalRecord (e_x ex) fx (e_stop_reason ex)
               (elapsed now time0) (e_stepsize ex) (e_gradnorm ex)
               (e_iter ex)))
         (trace st ++ [EvCost (e_x ex) (inr fx)])).

(** How many records lines 70-71 have appended after [n] passes. *)
Definition appended (n : nat) : nat :=
  if 2 <=? _logverbosity self then n else 0%nat.

(** Either every gradient evaluation so far returned, or the last one
    raised, the call ended with what it raised, and the passes and the
    records are those made before it. *)
Definition grad_ok_or_last (r : res Exit) (st : St) : Prop :=
  Forall returned (grad_calls (trace st))
  \/ exists pre y e,
       grad_calls (trace st) = (pre ++ [(y, inl e)])%list
       /\ Forall returned pre
       /\ r = Exc (Propagated e)
       /\ passes (trace st) = List.length pre
       /\ List.length (log_iterations (optlog st))
          = appended (List.length pre).

(** Every gradient evaluation so far returned, there was one per pass, and
    the log has the records of those passes. *)
Definition grad_ok (st : St) : Prop :=
  Forall returned (grad_calls (trace st))
  /\ List.length (grad_calls (trace st)) = passes (trace st)
  /\ List.length (log_iterations (optlog st)) = appended (passes (trace st)).

(** The runs of calls a trace is made of: what lines 44-52 record, what
    each way through a pass records, and the cost evaluation of line 91. *)
Inductive piece : list Event -> Prop :=
| piece_rand_raises e : piece [EvRand (inl e)]
| piece_start x x0 t0 : piece (start_events x x0 t0)
| piece_cost_raises x e : piece [EvCost x (inl e)]
| piece_grad_raises x c e : piece [EvCost x (inr c); EvGrad x (inl e)]
| piece_norm_raises x c g e :
    piece [EvCost x (inr c); EvGrad x (inr g); EvNorm x g (inl e)]
| piece_step_raises x iter c g gn l e :
    l_gradnorm l = gn -> l_iter l = iter -> l_x l = x -> l_grad l = g ->
    piece (head_events x iter c g gn ++ [EvStep l (inl e)])
| piece_check_raises x iter c g gn l s x' e :
    l_gradnorm l = gn -> l_iter l = iter -> l_x l = x -> l_grad l = g ->
    piece (head_events x iter c g gn
             ++ [EvStep l (inr (s, x'));
                 EvCheck (l_time0 l) s gn iter (inl e)])
| piece_done x iter c g gn l s x' reason :
    l_gradnorm l = gn -> l_iter l = iter -> l_x l = x -> l_grad l = g ->
    piece (head_events x iter c g gn
             ++ [EvStep l (inr (s, x'));
                 EvCheck (l_time0 l) s gn iter (inr reason)]
             ++ bye reason)
| piece_final x c : piece [EvCost x c].

(** The log holds one record per row of the trace, with the data of the
    row. *)
Definition recorded (st : St) : Prop :=
  log_iterations (optlog st) = map row_record (rows (trace st)).

(** A whole call: it ends before the loop, in the loop, or after it. *)
Inductive solved (linesearch : option Obj) (x : option Point) (fuel : nat)
    (st : St) : res Result -> St -> Prop :=
| solved_not_begun e st1 :
    begun linesearch x st (Exc e) st1 ->
    solved linesearch x fuel st (Exc e) st1
| solved_raised x0 t0 st1 e st2 :
    begun linesearch x st (Ok (x0, t0)) st1 ->
    run_loop t0 fuel x0 0 None st1 (Exc e) st2 ->
    solved linesearch x fuel st (Exc e) st2
| solved_running x0 t0 st1 st2 :
    begun linesearch x st (Ok (x0, t0)) st1 ->
    run_loop t0 fuel x0 0 None st1 Running st2 ->
    solved linesearch x fuel st Running st2
| solved_finished x0 t0 st1 ex st2 r st3 :
    begun linesearch x st (Ok (x0, t0)) st1 ->
    run_loop t0 fuel x0 0 None st1 (Ok ex) st2 ->
    finished t0 ex st2 r st3 ->
    solved linesearch x fuel st r st3.

End Relations.

End Solve.

Arguments Ok {V A} a.
Arguments Exc {V A} e.
Arguments Running {V A}.

(** ** A small instance to run the model on

    Points, tangent vectors, floats and clock readings are integers; the
    world is a clock and a count of gradient evaluations. *)

Module Toy.

Record world : Type := mkWorld {
  clk : Z;
  ngrad : Z
}.

(** Scientific notation for an integer taken as a float, for integers of at
    most [prec + 1] digits: first digit, the point, the other digits filled
    up with zeros to [prec] places, and the exponent in two digits. *)
Definition sci (plus : bool) (prec : nat) (f : Z) : string :=
  let digits := py_str_int (Z.abs f) in
  let more := (String.length digits - 1)%nat in
  (if f <? 0 then "-" else if plus then "+" else "")
    ++ substring 0 1 digits ++ "."
    ++ substring 1 more digits
    ++ string_of_list_ascii (repeat "0"%char (prec - more)%nat)
    ++ "e+" ++ (if (more <? 10)%nat then "0" else "")
    ++ py_str_int (Z.of_nat more).

#[local] Instance values : Values := {|
  Point := Z;
  Tangent := Z;
  float := Z;
  Time := Z;
  Obj := string;
  E := string;
  W := world;
  neg := Z.opp;
  time_time := fun w => (clk w, mkWorld (clk w + 1) (ngrad w));
  elapsed := fun now t0 => now - t0;
  float_sci := sci
|}.

(** The integers with [cost(x) = x*x], [grad(x) = 2*x] and the absolute
    value as norm; [rand()] gives 8. *)
Definition line : Manifold :=
  mkManifold (fun w => (inr 8, w)) (fun _ g w => (inr (Z.abs g), w)).

Definition square (verb : Z) : Problem :=
  mkProblem line verb
    (fun x w => (inr (x * x), w))
    (fun x w => (inr (2 * x), mkWorld (clk w) (ngrad w + 1))).

(** The same problem with a cost that raises whenever it is evaluated. *)
Definition square_cost_fails (verb : Z) : Problem :=
  mkProblem line verb
    (fun x w => (inl "ValueError", w))
    (fun x w => (inr (2 * x), mkWorld (clk w) (ngrad w + 1))).

(** The same problem with a gradient that raises on its third evaluation. *)
Definition square_grad_fails_third (verb : Z) : Problem :=
  mkProblem line verb
    (fun x w => (inr (x * x), w))
    (fun x w =>
       if ngrad w =? 2 then (inl "ValueError", mkWorld (clk w) (ngrad w + 1))
       else (inr (2 * x), mkWorld (clk w) (ngrad w + 1))).

(** A right-hand side for line 77: step size 1 along a quarter of the
    descent direction. *)
Definition quarter_step : Rhs :=
  fun _ _ l w => (inr (1, l_x l + l_desc_dir l / 4), w).

(** Modelled from the spec: the stopping policy of the [Solver] base class,
    which is not in the sources at hand.  A threshold left unconfigured
    ([None]) never triggers; the first threshold crossed, in the order
    iterations, time, gradient norm, step size, gives the reason. *)
Record thresholds : Type := mkThresholds {
  maxiter : option Z;
  maxtime : option Z;
  mingradnorm : option Z;
  minstepsize : option Z
}.

Definition reached (t : option Z) (v : Z) : bool :=
  match t with
  | Some m => m <=? v
  | None => false
  end.

Definition below (t : option Z) (v : Z) : bool :=
  match t with
  | Some m => v <=? m
  | None => false
  end.

Definition policy (t : thresholds) (time0 stepsize gradnorm iter : Z)
    (w : world) : (string + option string) * world :=
  let now := clk w in
  let w' := mkWorld (clk w + 1) (ngrad w) in
  if reached (maxiter t) iter then (inr (Some "MaxIterationsReached"), w')
  else if reached (maxtime t) (now - time0) then
    (inr (Some "MaxTimeExceeded"), w')
  else if below (mingradnorm t) gradnorm then
    (inr (Some "GradientNormBelowThreshold"), w')
  else if below (minstepsize t) stepsize then
    (inr (Some "StepSizeBelowThreshold"), w')
  else (inr None, w').

Definition all_disabled : thresholds := mkThresholds None None None None.

Definition only_maxiter (n : Z) : thresholds :=
  mkThresholds (Some n) None None None.

Definition solver (logverbosity : Z) (t : thresholds) : Solver :=
  mkSolver logverbosity (policy t).

Definition w0 : world := mkWorld 100 0.

Definition log0 : OptLog := mkOptLog [] [] [] None.

Definition st0 : St := initial w0 log0.

(** Three passes from the random point 8, stopped by the iteration
    threshold, with full logging and printing. *)
Definition run_logged : res Result * St :=
  solve_body quarter_step (Some "ls") (solver 2 (only_maxiter 3)) (square 2)
    None 10 st0.

Definition result_logged : Result :=
  match fst run_logged with
  | Ok r => r
  | _ => RPoint 0
  end.

(** The same call where the gradient raises on its third evaluation. *)
Definition run_grad_fails : res Result * St :=
  solve_body quarter_step (Some "ls") (solver 2 (only_maxiter 5))
    (square_grad_fails_third 2) (Some 8) 10 st0.

(** The same call where the cost raises on its first evaluation. *)
Definition run_cost_fails : res Result * St :=
  solve_body quarter_step (Some "ls") (solver 2 (only_maxiter 5))
    (square_cost_fails 2) (Some 8) 10 st0.

(** No threshold configured, 25 passes of fuel. *)
Definition run_unstoppable : res Result * St :=
  solve_body quarter_step (Some "ls") (solver 0 all_disabled) (square 0)
    (Some 4) 25 st0.

(** The name [linesearch] unbound, as in the file. *)
Definition run_unbound (t : thresholds) : res Result * St :=
  solve_body quarter_step None (solver 0 t) (square 0) (Some 4) 25 st0.

(** Console verbosity 1 and log verbosity 1, from the point 8. *)
Definition run_quiet : res Result * St :=
  solve_body quarter_step (Some "ls") (solver 1 (only_maxiter 3)) (square 1)
    (Some 8) 10 st0.

(** The locals of the first pass of [run_logged] at line 77. *)
Definition first_locals : Locals :=
  mkLocals 8 1 100 64 16 16 (-16) None.

End Toy.

(** ** The body and the relations agree *)

Section Facts.

Context {V : Values}.

Lemma append_empty (s : string) : s ++ "" = s.
Proof.
  induction s as [|c s IH]; simpl; [reflexivity | now rewrite IH].
Qed.

(** The format of line 68 applied to [(iter, cost, gradnorm)]. *)
Lemma format_iter_line (iter : Z) (c gn : float) :
  py_format "%5d\t%+.16e\t%.8e" [VInt iter; VFloat c; VFloat gn]
  = Some (iter_line iter c gn).
Proof.
  unfold py_format, iter_line.
  match goal with
  | |- context [parse_fmt ?n ?s] =>
      let r := eval vm_compute in (parse_fmt n s) in
      change (parse_fmt n s) with r
  end.
  cbv [render render_conv conv_type conv_width conv_plus conv_prec
         option_map with_plus andb Ascii.eqb Bool.eqb].
  rewrite append_empty. reflexivity.
Qed.

(** The literal of line 52. *)
Lemma header_literal :
  py_literal " iter\t\t   cost val\t    grad. norm" = header.
Proof. reflexivity. Qed.

Lemma linesearch_not_bound :
  ~ In "linesearch" (solve_locals ++ module_globals).
Proof.
  cbn. intros H.
  repeat (destruct H as [H | H]; [discriminate H |]). exact H.
Qed.

(** *** How the pieces of the body run *)

Lemma bind_call_raises {A B} (f : W -> (E + A) * W) (ev : E + A -> Event)
    (k : A -> M B) (st : St) (e : E) (w' : W) :
  f (world st) = (inl e, w') ->
  bind (call f ev) k st
  = (Exc (Propagated e), mkSt w' (optlog st) (trace st ++ [ev (inl e)])).
Proof. intros H. unfold bind, call. now rewrite H. Qed.

Lemma bind_call_returns {A B} (f : W -> (E + A) * W) (ev : E + A -> Event)
    (k : A -> M B) (st : St) (a : A) (w' : W) :
  f (world st) = (inr a, w') ->
  bind (call f ev) k st
  = k a (mkSt w' (optlog st) (trace st ++ [ev (inr a)])).
Proof. intros H. unfold bind, call. now rewrite H. Qed.

Lemma bind_when_print {B} (b : bool) (s : string) (k : unit -> M B)
    (st : St) :
  bind (when b (print s)) k st
  = k tt (mkSt (world st) (optlog st)
            (trace st ++ (if b then [EvPrint s] else []))).
Proof.
  destruct b; unfold bind, when, print, emit, ret; cbn [fst snd].
  - reflexivity.
  - rewrite app_nil_r. now destruct st.
Qed.

Lemma bind_ret {A B} (a : A) (k : A -> M B) (st : St) :
  bind (ret a) k st = k a st.
Proof. reflexivity. Qed.

Section Passes.

Variable line77 : Rhs.
Variable self : Solver.
Variable problem : Problem.

Lemma bind_when_append {B} (iter : Z) (x : Point) (c gn : float)
    (k : unit -> M B) (st : St) :
  bind (when (2 <=? _logverbosity self)
          (_append_optlog iter x c [("gradnorm", gn)])) k st
  = k tt (mkSt (world st) (logged self (optlog st) iter x c gn) (trace st)).
Proof.
  unfold bind, when, logged, _append_optlog, ret.
  destruct (2 <=? _logverbosity self); [reflexivity | now destruct st].
Qed.

Lemma iteration_cases (time0 : Time) (x : Point) (iter : Z)
    (prev : option float) (st : St) (r : res (bool * Exit)) (st' : St) :
  iteration line77 self problem time0 x iter prev st = (r, st') ->
  pass line77 self problem time0 x iter prev st r st'.
Proof.
  unfold iteration, objective, gradient, man.
  destruct (cost problem x (world st)) as [[e | c] w1] eqn:Hc.
  { rewrite (bind_call_raises _ _ _ _ _ _ Hc). intros [= <- <-].
    now apply pass_cost_raises. }
  rewrite (bind_call_returns _ _ _ _ _ _ Hc).
  destruct (grad problem x w1) as [[e | g] w2] eqn:Hg.
  { rewrite (bind_call_raises _ _ _ (mkSt w1 _ _) _ _ Hg).
    cbn [world optlog trace]. rewrite <- app_assoc. intros [= <- <-].
    now apply pass_grad_raises with (w1 := w1). }
  rewrite (bind_call_returns _ _ _ (mkSt w1 _ _) _ _ Hg).
  cbn [world optlog trace].
  destruct (norm (manifold problem) x g w2) as [[e | gn] w3] eqn:Hn.
  { rewrite (bind_call_raises _ _ _ (mkSt w2 _ _) _ _ Hn).
    cbn [world optlog trace]. rewrite <- !app_assoc. intros [= <- <-].
    now apply pass_norm_raises with (w1 := w1) (w2 := w2). }
  rewrite (bind_call_returns _ _ _ (mkSt w2 _ _) _ _ Hn).
  cbn [world optlog trace]. cbv zeta.
  rewrite format_iter_line, bind_when_print, bind_when_append.
  cbn [world optlog trace].
  replace ((((trace st ++ [EvCost x (inr c)]) ++ [EvGrad x (inr g)])
              ++ [EvNorm x g (inr gn)])
             ++ (if 2 <=? verbosity problem
                 then [EvPrint (iter_line (iter + 1) c gn)] else []))%list
    with (trace st ++ head_events problem x (iter + 1) c g gn)%list
    by (unfold head_events; now rewrite <- !app_assoc).
  set (l := mkLocals x (iter + 1) time0 c g gn (neg g) prev).
  destruct (line77 self problem l w3) as [[e | [s x']] w4] eqn:Hs.
  { rewrite (bind_call_raises _ _ _ (mkSt w3 _ _) _ _ Hs).
    cbn [world optlog trace]. rewrite <- app_assoc. intros [= <- <-].
    now apply pass_step_raises with (w1 := w1) (w2 := w2) (w3 := w3). }
  rewrite (bind_call_returns _ _ _ (mkSt w3 _ _) _ _ Hs).
  cbn [world optlog trace fst snd].
  destruct (_check_stopping_criterion self time0 s gn (iter + 1) w4)
    as [[e | reason] w5] eqn:Hk.
  { rewrite (bind_call_raises _ _ _ (mkSt w4 _ _) _ _ Hk).
    cbn [world optlog trace]. rewrite <- !app_assoc. intros [= <- <-].
    now apply pass_check_raises
      with (w1 := w1) (w2 := w2) (w3 := w3) (w4 := w4). }
  rewrite (bind_call_returns _ _ _ (mkSt w4 _ _) _ _ Hk).
  cbn [world optlog trace].
  assert (Hbye : forall st1,
    (if truthy reason
     then bind (when (1 <=? verbosity problem)
                  (bind (print (reason_text reason)) (fun _ => print "")))
            (fun _ => ret (true, mkExit x' reason s gn (iter + 1)))
     else ret (false, mkExit x' reason s gn (iter + 1))) st1
    = (Ok (truthy reason, mkExit x' reason s gn (iter + 1)),
       mkSt (world st1) (optlog st1) (trace st1 ++ bye problem reason))).
  { intros st1. unfold bye, when, print, emit, ret, bind.
    destruct (truthy reason); cbn [andb];
      [destruct (1 <=? verbosity problem) |];
      cbn [world optlog trace]; rewrite <- ?app_assoc, ?app_nil_r;
      try reflexivity; now destruct st1. }
  rewrite Hbye. cbn [world optlog trace]. rewrite <- !app_assoc.
  intros [= <- <-].
  now apply pass_done with (w1 := w1) (w2 := w2) (w3 := w3) (w4 := w4).
Qed.

Lemma iteration_pass (time0 : Time) (x : Point) (iter : Z)
    (prev : option float) (st : St) :
  pass line77 self problem time0 x iter prev st
    (fst (iteration line77 self problem time0 x iter prev st))
    (snd (iteration line77 self problem time0 x iter prev st)).
Proof. apply iteration_cases. now destruct (iteration _ _ _ _ _ _ _ _). Qed.

Lemma loop_cases (time0 : Time) (fuel : nat) :
  forall (x : Point) (iter : Z) (prev : option float) (st : St)
         (r : res Exit) (st' : St),
    loop line77 self problem fuel time0 x iter prev st = (r, st') ->
    run_loop line77 self problem time0 fuel x iter prev st r st'.
Proof.
  induction fuel as [|fuel IH]; intros x iter prev st r st'.
  - intros [= <- <-]. apply run_out.
  - cbn [loop]. unfold bind.
    destruct (iteration line77 self problem time0 x iter prev st)
      as [[[b ex] | e |] st1] eqn:Hi; apply iteration_cases in Hi;
      cbn [fst snd].
    + destruct b.
      * intros [= <- <-]. now apply run_break.
      * intros Hl. eapply run_again; [exact Hi | now apply IH].
    + intros [= <- <-]. now apply run_raise.
    + inversion Hi.
Qed.

Lemma prologue_cases (linesearch : option Obj) (x : option Point)
    (st : St) (r : res (Point * Time)) (st' : St) :
  prologue linesearch problem x st = (r, st') ->
  begun problem linesearch x st r st'.
Proof.
  unfold prologue, man.
  assert (Hnext : forall x0 w1,
    first_point problem x (world st) = (inr x0, w1) ->
    forall st1, world st1 = w1 -> optlog st1 = optlog st ->
      trace st1
      = (trace st ++ match x with None => [EvRand (inr x0)] | Some _ => [] end)
          %list ->
      bind clock (fun time0 =>
        bind (when (2 <=? verbosity problem)
                (print (py_literal " iter\t\t   cost val\t    grad. norm")))
          (fun _ =>
             bind (load_name "linesearch" linesearch) (fun ls =>
               bind (_start_optlog ["gradnorm"] [("linesearcher", ls)])
                 (fun _ => ret (x0, time0))))) st1 = (r, st') ->
      begun problem linesearch x st r st').
  { intros x0 w1 Hx st1 Hw Hl Ht. unfold bind at 1, clock.
    rewrite Hw. destruct (time_time w1) as [t0 w2] eqn:Hclk.
    rewrite header_literal, bind_when_print. cbn [world optlog trace].
    rewrite Hl, Ht, <- !app_assoc.
    change ((match x with None => [EvRand (inr x0)] | Some _ => [] end)
              ++ [EvTime t0]
              ++ (if 2 <=? verbosity problem then [EvPrint header] else []))
             %list
      with (start_events problem x x0 t0).
    destruct linesearch as [ls |]; cbn [load_name].
    - rewrite bind_ret. unfold bind, _start_optlog, ret.
      cbn [world optlog trace]. intros [= <- <-].
      now apply begun_ready with (w1 := w1).
    - unfold bind, raise. intros [= <- <-].
      now apply begun_unbound with (w1 := w1). }
  destruct x as [p |].
  - rewrite bind_ret. apply (Hnext p (world st)); try reflexivity.
    now rewrite app_nil_r.
  - destruct (rand (manifold problem) (world st)) as [[e | x0] w1] eqn:Hr.
    + rewrite (bind_call_raises _ _ _ _ _ _ Hr). intros [= <- <-].
      now apply begun_rand_raises.
    + rewrite (bind_call_returns _ _ _ _ _ _ Hr).
      apply (Hnext x0 w1); [exact Hr | reflexivity ..].
Qed.

Lemma finish_cases (time0 : Time) (ex : Exit) (st : St) (r : res Result)
    (st' : St) :
  finish self problem time0 ex st = (r, st') ->
  finished self problem time0 ex st r st'.
Proof.
  unfold finish, objective.
  destruct (_logverbosity self <=? 0) eqn:Hv.
  - apply Z.leb_le in Hv. unfold ret. intros [= <- <-].
    now apply finished_bare.
  - apply Z.leb_gt in Hv.
    destruct (cost problem (e_x ex) (world st)) as [[e | fx] w1] eqn:Hc.
    + rewrite (bind_call_raises _ _ _ _ _ _ Hc). intros [= <- <-].
      now apply finished_cost_raises.
    + rewrite (bind_call_returns _ _ _ _ _ _ Hc).
      unfold bind, _stop_optlog, get_optlog, ret. cbn [world optlog trace].
      destruct (time_time w1) as [now w2] eqn:Hclk. intros [= <- <-].
      now apply finished_logged with (w1 := w1).
Qed.

Lemma pass_not_running (time0 : Time) (x : Point) (iter : Z)
    (prev : option float) (st st' : St) :
  ~ pass line77 self problem time0 x iter prev st Running st'.
Proof. intros H. inversion H. Qed.

(** Every call of the body is one of the [solved] cases. *)
Lemma solve_cases (linesearch : option Obj) (x : option Point) (fuel : nat)
    (st : St) (r : res Result) (st' : St) :
  solve_body line77 linesearch self problem x fuel st = (r, st') ->
  solved line77 self problem linesearch x fuel st r st'.
Proof.
  unfold solve_body, bind.
  destruct (prologue linesearch problem x st) as [[[x0 t0] | e |] st1] eqn:Hp;
    apply prologue_cases in Hp.
  - cbn [fst snd].
    destruct (loop line77 self problem fuel t0 x0 0 None st1)
      as [[ex | e |] st2] eqn:Hl; apply loop_cases in Hl.
    + intros Hf. apply finish_cases in Hf.
      now apply solved_finished with (x0 := x0) (t0 := t0) (st1 := st1)
                                     (ex := ex) (st2 := st2).
    + intros [= <- <-].
      now apply solved_raised with (x0 := x0) (t0 := t0) (st1 := st1).
    + intros [= <- <-].
      now apply solved_running with (x0 := x0) (t0 := t0) (st1 := st1).
  - intros [= <- <-]. now apply solved_not_begun.
  - inversion Hp.
Qed.

Lemma solve_solved (linesearch : option Obj) (x : option Point) (fuel : nat)
    (st : St) :
  solved line77 self problem linesearch x fuel st
    (fst (solve_body line77 linesearch self problem x fuel st))
    (snd (solve_body line77 linesearch self problem x fuel st)).
Proof. apply solve_cases. now destruct (solve_body _ _ _ _ _ _ _). Qed.

(** Loop invariants: [I] holds whenever the top of the loop is reached with
    counter [iter], [J] holds of every way the loop is left. *)
Lemma run_loop_invariant (time0 : Time) (I : Point -> Z -> St -> Prop)
    (J : res Exit -> St -> Prop) :
  (forall x iter st, I x iter st -> J Running st) ->
  (forall x iter prev st r st',
      I x iter st ->
      pass line77 self problem time0 x iter prev st r st' ->
      match r with
      | Ok (false, ex) => I (e_x ex) (e_iter ex) st'
      | Ok (true, ex) => J (Ok ex) st'
      | Exc e => J (Exc e) st'
      | Running => True
      end) ->
  forall fuel x iter prev st r st',
    run_loop line77 self problem time0 fuel x iter prev st r st' ->
    I x iter st -> J r st'.
Proof.
  intros Hout Hstep fuel x iter prev st r st' Hrun.
  induction Hrun as [x iter prev st
                    |fuel x iter prev st e st' Hp
                    |fuel x iter prev st ex st' Hp
                    |fuel x iter prev st ex st' r st'' Hp Hrun IH];
    intros HI.
  - now apply Hout with (x := x) (iter := iter).
  - exact (Hstep _ _ _ _ _ _ HI Hp).
  - exact (Hstep _ _ _ _ _ _ HI Hp).
  - apply IH. exact (Hstep _ _ _ _ _ _ HI Hp).
Qed.

End Passes.

(** *** Reading a trace piece by piece *)

Lemma printed_app (a b : list Event) :
  printed (a ++ b) = (printed a ++ printed b)%list.
Proof. apply flat_map_app. Qed.

Lemma rand_calls_app (a b : list Event) :
  rand_calls (a ++ b) = (rand_calls a ++ rand_calls b)%list.
Proof. apply flat_map_app. Qed.

Lemma cost_calls_app (a b : list Event) :
  cost_calls (a ++ b) = (cost_calls a ++ cost_calls b)%list.
Proof. apply flat_map_app. Qed.

Lemma grad_calls_app (a b : list Event) :
  grad_calls (a ++ b) = (grad_calls a ++ grad_calls b)%list.
Proof. apply flat_map_app. Qed.

Lemma step_calls_app (a b : list Event) :
  step_calls (a ++ b) = (step_calls a ++ step_calls b)%list.
Proof. apply flat_map_app. Qed.

Lemma costs_app (a b : list Event) :
  costs (a ++ b) = (costs a ++ costs b)%list.
Proof. apply flat_map_app. Qed.

Lemma norms_app (a b : list Event) :
  norms (a ++ b) = (norms a ++ norms b)%list.
Proof. apply flat_map_app. Qed.

Lemma passes_app (a b : list Event) :
  passes (a ++ b) = (passes a + passes b)%nat.
Proof. unfold passes. now rewrite norms_app, length_app. Qed.

Lemma head_events_if (problem : Problem) (x : Point) (iter : Z) (c : float)
    (g : Tangent) (gn : float) :
  head_events problem x iter c g gn
  = [EvCost x (inr c); EvGrad x (inr g); EvNorm x g (inr gn);
     EvPrint (iter_line iter c gn)]
    \/ head_events problem x iter c g gn
       = [EvCost x (inr c); EvGrad x (inr g); EvNorm x g (inr gn)].
Proof.
  unfold head_events. destruct (2 <=? verbosity problem); cbn; auto.
Qed.

Lemma bye_if (problem : Problem) (reason : option string) :
  bye problem reason = [EvPrint (reason_text reason); EvPrint ""]
  \/ bye problem reason = [].
Proof.
  unfold bye. destruct (truthy reason && (1 <=? verbosity problem)); auto.
Qed.

Lemma start_events_if (problem : Problem) (x : option Point) (x0 : Point)
    (t0 : Time) :
  exists pr, (pr = [EvPrint header] \/ pr = [])
    /\ start_events problem x x0 t0
       = ((match x with None => [EvRand (inr x0)] | Some _ => [] end)
            ++ [EvTime t0] ++ pr)%list.
Proof.
  unfold start_events.
  destruct (2 <=? verbosity problem);
    [exists [EvPrint header] | exists []]; split; auto.
Qed.

(** Splits a trace written with [++] into the calls of each kind. *)
Ltac read_trace :=
  rewrite ?printed_app, ?rand_calls_app, ?cost_calls_app, ?grad_calls_app,
    ?step_calls_app, ?costs_app, ?norms_app, ?passes_app;
  unfold head_events, bye, start_events;
  repeat match goal with
         | |- context [if ?b then _ else _] => destruct b
         end;
  cbn [printed rand_calls cost_calls grad_calls step_calls costs norms passes
       flat_map app List.length].

Ltac invert_pass H := inversion H; subst; clear H.

(** ** The unbound name of line 55 *)

Section Unbound.

Variable rhs : Rhs.
Variable self : Solver.
Variable problem : Problem.

Lemma begun_unbound_cases (x : option Point) (st : St)
    (r : res (Point * Time)) (st' : St) :
  begun problem None x st r st' ->
  r = Exc match fst (first_point problem x (world st)) with
          | inl e => Propagated e
          | inr _ => NameError "linesearch"
          end
  /\ optlog st' = optlog st
  /\ exists d, trace st' = (trace st ++ d)%list
       /\ cost_calls d = [] /\ grad_calls d = [] /\ step_calls d = []
       /\ passes d = 0%nat.
Proof.
  intros H. inversion H as [e w1 Hx Hr | x0 w1 t0 w2 _ Hf Hc | ]; subst.
  - cbn [first_point]. rewrite Hr. cbn.
    repeat split. eexists. split; [reflexivity |]. now cbn.
  - rewrite Hf. cbn [fst optlog trace]. repeat split.
    eexists. split; [reflexivity |].
    destruct x; read_trace; auto.
  - discriminate.
Qed.

End Unbound.

(** The body of [solve] with [linesearch] unbound, whatever line 77 is. *)
Lemma linesearch_unbound_before_loop (rhs : Rhs) (self : Solver)
    (problem : Problem) (x : option Point) (fuel : nat) (w : W)
    (log : OptLog) :
  let run := solve_body rhs None self problem x fuel (initial w log) in
  fst run
  = Exc match fst (first_point problem x w) with
        | inl e => Propagated e
        | inr _ => NameError "linesearch"
        end
  /\ optlog (snd run) = log
  /\ cost_calls (trace (snd run)) = []
  /\ grad_calls (trace (snd run)) = []
  /\ step_calls (trace (snd run)) = []
  /\ passes (trace (snd run)) = 0%nat.
Proof.
  intros run.
  pose proof (solve_solved rhs self problem None x fuel (initial w log))
    as Hs.
  fold run in Hs.
  assert (Hb : exists e,
             begun problem None x (initial w log) (Exc e) (snd run)
             /\ fst run = Exc e).
  { inversion Hs as [e st1 Hb He Hst
                    | x0 t0 st1 e st2 Hb
                    | x0 t0 st1 st2 Hb
                    | x0 t0 st1 ex st2 r st3 Hb];
      try (inversion Hb; discriminate).
    exists e. now split. }
  destruct Hb as (e & Hb & ->).
  apply begun_unbound_cases in Hb.
  destruct Hb as (Hr & Hl & d & Ht & Hc & Hg & Hsc & Hp).
  cbn [initial world optlog trace] in *.
  rewrite Ht. cbn [app]. injection Hr as ->. auto 10.
Qed.

(** C9: Every call of [solve] ends before the first pass through the loop:
    as the file stands the module is rejected with a [SyntaxError] (line 77
    has no right-hand side), and whatever is put at line 77, [solve] still
    reads the unbound name [linesearch] at line 55 and raises [NameError]
    there (or, before that, propagates what [man.rand()] raised).  No cost,
    gradient or step is evaluated, no pass is made, the log is left as it
    was, and nothing is returned. *)
Theorem linesearch_unbound_aborts_before_loop (rhs : option Rhs) :
  import_module as_written = inl SyntaxError
  /\ ~ In "linesearch" (solve_locals ++ module_globals)
  /\ match import_module (mkCompletion rhs None) with
     | inl e => e = SyntaxError
     | inr solve =>
         forall self problem x fuel w log,
           let run := solve self problem x fuel (initial w log) in
           fst run
           = Exc match fst (first_point problem x w) with
                 | inl e => Propagated e
                 | inr _ => NameError "linesearch"
                 end
           /\ optlog (snd run) = log
           /\ cost_calls (trace (snd run)) = []
           /\ grad_calls (trace (snd run)) = []
           /\ step_calls (trace (snd run)) = []
           /\ passes (trace (snd run)) = 0%nat
     end.
Proof.
  split; [reflexivity |]. split; [apply linesearch_not_bound |].
  destruct rhs as [rhs' |]; cbn [import_module c_line77 c_linesearch];
    [| reflexivity].
  intros self problem x fuel w log.
  apply linesearch_unbound_before_loop.
Qed.

(** ** The starting point *)

Section Start.

Variable rhs : Rhs.
Variable self : Solver.
Variable problem : Problem.



End Start.


(** ** The descent direction *)

Lemma steepest_app (tr X : list Event) :
  steepest tr -> steepest X -> steepest (tr ++ X).
Proof.
  intros Htr HX l r. rewrite step_calls_app, grad_calls_app, in_app_iff.
  intros [H | H]; [apply Htr in H | apply HX in H];
    destruct H as [H1 H2]; split; auto; apply in_or_app; auto.
Qed.

Lemma steepest_no_step (X : list Event) : step_calls X = [] -> steepest X.
Proof. intros H l r. rewrite H. intros []. Qed.

Section Direction.

Variable rhs : Rhs.
Variable self : Solver.
Variable problem : Problem.

Lemma pass_steepest (time0 : Time) (x : Point) (iter : Z)
    (prev : option float) (st : St) (r : res (bool * Exit)) (st' : St) :
  pass rhs self problem time0 x iter prev st r st' ->
  steepest (trace st) -> steepest (trace st').
Proof.
  intros Hp Hst.
  invert_pass Hp; cbn [trace]; apply steepest_app; try exact Hst;
    try (apply steepest_no_step; reflexivity);
    intros l r; read_trace;
    (intros [[= <- <-] | []]; cbn [l_desc_dir l_grad l_x];
     split; [reflexivity | now left]).
Qed.

Lemma loop_steepest (time0 : Time) (fuel : nat) (x : Point) (iter : Z)
    (prev : option float) (st : St) (r : res Exit) (st' : St) :
  run_loop rhs self problem time0 fuel x iter prev st r st' ->
  steepest (trace st) -> steepest (trace st').
Proof.
  intros Hrun.
  refine (run_loop_invariant rhs self problem time0
            (fun _ _ st1 => steepest (trace st1))
            (fun _ st1 => steepest (trace st1)) _ _ _ _ _ _ _ _ _ Hrun).
  - auto.
  - intros x1 i p st1 r1 st2 HI Hp.
    pose proof (pass_steepest _ _ _ _ _ _ _ Hp HI) as H.
    destruct r1 as [[[] ex] | e |]; auto.
Qed.

Lemma begun_steepest (linesearch : option Obj) (x : option Point) (st : St)
    (r : res (Point * Time)) (st' : St) :
  begun problem linesearch x st r st' ->
  steepest (trace st) -> steepest (trace st').
Proof.
  intros Hb Hst.
  inversion Hb; subst; cbn [trace]; apply steepest_app; try exact Hst;
    apply steepest_no_step; try reflexivity;
    destruct x; read_trace; reflexivity.
Qed.

Lemma finished_steepest (time0 : Time) (ex : Exit) (st : St)
    (r : res Result) (st' : St) :
  finished self problem time0 ex st r st' ->
  steepest (trace st) -> steepest (trace st').
Proof.
  intros Hf Hst.
  inversion Hf; subst; cbn [trace]; try exact Hst;
    apply steepest_app; try exact Hst; now apply steepest_no_step.
Qed.

End Direction.

(** C5: Whenever a pass gets to line 77, the descent direction it computed
    at line 74 is the negation [neg] of the gradient estimate of that pass,
    and that estimate is what the gradient function returned at the point of
    the pass.  The direction is a function of the estimate alone: the same
    [neg] in every pass, whatever the point, the counter or the world. *)
Theorem descent_direction_is_negated_gradient (rhs : Rhs)
    (linesearch : option Obj) (self : Solver) (problem : Problem)
    (x : option Point) (fuel : nat) (w : W) (log : OptLog) (l : Locals)
    (r : E + float * Point) :
  let tr :=
    trace (snd (solve_body rhs linesearch self problem x fuel
                  (initial w log))) in
  In (l, r) (step_calls tr) ->
  l_desc_dir l = neg (l_grad l)
  /\ In (l_x l, inr (l_grad l)) (grad_calls tr).
Proof.
  intros tr. revert l r. change (steepest tr).
  pose proof (solve_solved rhs self problem linesearch x fuel (initial w log))
    as Hs.
  fold tr in Hs.
  assert (H0 : steepest (trace (initial w log)))
    by (now apply steepest_no_step).
  inversion Hs as [e st1 Hb
                  | x0 t0 st1 e st2 Hb Hl
                  | x0 t0 st1 st2 Hb Hl
                  | x0 t0 st1 ex st2 r' st3 Hb Hl Hf];
    apply begun_steepest in Hb; auto.
  - eapply loop_steepest; eauto.
  - eapply loop_steepest; eauto.
  - eapply finished_steepest; eauto. eapply loop_steepest; eauto.
Qed.

(** ** Counting passes *)

Lemma counting_next (n : nat) :
  counting (n + 1) = (counting n ++ [Z.of_nat n + 1])%list.
Proof.
  unfold counting. rewrite Nat.add_1_r, seq_S, map_app. cbn [map].
  do 2 f_equal. lia.
Qed.

Lemma counting_length (n : nat) : List.length (counting n) = n.
Proof. unfold counting. now rewrite length_map, length_seq. Qed.

Section Counting.

Variable rhs : Rhs.
Variable self : Solver.
Variable problem : Problem.

Lemma logged_on (l : OptLog) (iter : Z) (x : Point) (c gn : float) :
  2 <= _logverbosity self ->
  log_iterations (logged self l iter x c gn)
  = (log_iterations l ++ [mkIterationRecord iter x c [("gradnorm", gn)]])
      %list.
Proof.
  intros H. unfold logged. apply Z.leb_le in H. now rewrite H.
Qed.


Lemma pass_in_step (time0 : Time) (x : Point) (iter : Z)
    (prev : option float) (st : St) (b : bool) (ex : Exit) (st' : St) :
  pass rhs self problem time0 x iter prev st (Ok (b, ex)) st' ->
  in_step iter (trace st) ->
  in_step (e_iter ex) (trace st') /\ e_iter ex = iter + 1.
Proof.
  intros Hp (Hn & Hc & Hv). invert_pass Hp. cbn [trace e_iter].
  split; [| reflexivity]. unfold in_step.
  read_trace; rewrite ?length_app, ?Hc, ?Hv; cbn [List.length]; lia.
Qed.

Lemma loop_in_step (time0 : Time) (fuel : nat) (x : Point) (iter : Z)
    (prev : option float) (st : St) (ex : Exit) (st' : St) :
  run_loop rhs self problem time0 fuel x iter prev st (Ok ex) st' ->
  in_step iter (trace st) -> in_step (e_iter ex) (trace st').
Proof.
  intros Hrun.
  refine (run_loop_invariant rhs self problem time0
            (fun _ i st1 => in_step i (trace st1))
            (fun r st1 =>
               match r with
               | Ok ex1 => in_step (e_iter ex1) (trace st1)
               | _ => True
               end) _ _ _ _ _ _ _ _ _ Hrun).
  - auto.
  - intros x1 i p st1 r1 st2 HI Hp.
    destruct r1 as [[b ex1] | e |]; auto.
    destruct (pass_in_step _ _ _ _ _ _ _ _ Hp HI) as [H _].
    now destruct b.
Qed.

Lemma begun_in_step (linesearch : option Obj) (x : option Point) (w : W)
    (log : OptLog) (x0 : Point) (t0 : Time) (st' : St) :
  begun problem linesearch x (initial w log) (Ok (x0, t0)) st' ->
  in_step 0 (trace st')
  /\ log_iterations (optlog st') = [] /\ log_final (optlog st') = None
  /\ printed (trace st')
     = (if 2 <=? verbosity problem then [header] else []).
Proof.
  intros Hb. inversion Hb; subst. cbn [initial trace optlog app].
  unfold in_step, start_events.
  destruct (2 <=? verbosity problem); destruct x; cbn; auto.
Qed.

Lemma pass_numbered (time0 : Time) (x : Point) (iter : Z)
    (prev : option float) (st : St) (r : res (bool * Exit)) (st' : St) :
  2 <= _logverbosity self ->
  pass rhs self problem time0 x iter prev st r st' ->
  Z.of_nat (passes (trace st)) = iter ->
  numbered st ->
  numbered st' /\ (forall b ex, r = Ok (b, ex) ->
                      Z.of_nat (passes (trace st')) = e_iter ex).
Proof.
  intros Hv Hp Hn Hnum. unfold numbered in *.
  invert_pass Hp; cbn [trace optlog]; (split; [| intros ? ? [= <- <-]]);
    rewrite ?logged_on by exact Hv;
    rewrite ?map_app, ?Hnum; cbn [map rec_iteration e_iter];
    read_trace; rewrite ?Nat.add_0_r, ?counting_next; try reflexivity;
    try lia.
Qed.

Lemma loop_numbered (time0 : Time) (fuel : nat) (x : Point) (iter : Z)
    (prev : option float) (st : St) (r : res Exit) (st' : St) :
  2 <= _logverbosity self ->
  run_loop rhs self problem time0 fuel x iter prev st r st' ->
  Z.of_nat (passes (trace st)) = iter ->
  numbered st -> numbered st'.
Proof.
  intros Hv Hrun Hn Hnum.
  refine (run_loop_invariant rhs self problem time0
            (fun _ i st1 =>
               Z.of_nat (passes (trace st1)) = i /\ numbered st1)
            (fun _ st1 => numbered st1) _ _ _ _ _ _ _ _ _ Hrun _);
    [tauto | | auto].
  intros x1 i p st1 r1 st2 [HI1 HI2] Hp.
  destruct (pass_numbered _ _ _ _ _ _ _ Hv Hp HI1 HI2) as [H1 H2].
  destruct r1 as [[[] ex1] | e |]; auto.
  split; [now apply (H2 false) | exact H1].
Qed.

End Counting.

(** ** Leaving the loop *)

Section Leaving.

Variable rhs : Rhs.
Variable self : Solver.
Variable problem : Problem.


(** A call that returns went through the three parts. *)
Lemma solved_returns (linesearch : option Obj) (x : option Point)
    (fuel : nat) (st : St) (res : Result) (st' : St) :
  solved rhs self problem linesearch x fuel st (Ok res) st' ->
  exists x0 t0 st1 ex st2,
    begun problem linesearch x st (Ok (x0, t0)) st1
    /\ run_loop rhs self problem t0 fuel x0 0 None st1 (Ok ex) st2
    /\ finished self problem t0 ex st2 (Ok res) st'.
Proof.
  intros Hs.
  inversion Hs as [| | | x0 t0 st1 ex st2 r' st3 Hb Hl Hf]; subst.
  exists x0, t0, st1, ex, st2. auto.
Qed.

End Leaving.

(** ** The iteration records *)

Section Records.

Variable rhs : Rhs.
Variable self : Solver.
Variable problem : Problem.

(** A pass that ends without an exception got to line 65. *)
Lemma pass_adds_a_pass (time0 : Time) (x : Point) (iter : Z)
    (prev : option float) (st : St) (b : bool) (ex : Exit) (st' : St) :
  pass rhs self problem time0 x iter prev st (Ok (b, ex)) st' ->
  passes (trace st') = (passes (trace st) + 1)%nat.
Proof.
  intros Hp. inversion Hp; subst. cbn [trace]. read_trace; lia.
Qed.

(** A loop that is still running has made every pass it was given. *)
Lemma loop_running (time0 : Time) (fuel : nat) (x : Point) (iter : Z)
    (prev : option float) (st : St) (r : res Exit) (st' : St) :
  run_loop rhs self problem time0 fuel x iter prev st r st' ->
  r = Running ->
  passes (trace st') = (passes (trace st) + fuel)%nat.
Proof.
  intros Hrun.
  induction Hrun as [x iter prev st
                    |fuel x iter prev st e st' Hp
                    |fuel x iter prev st ex st' Hp
                    |fuel x iter prev st ex st' r st'' Hp Hrun IH];
    intros Hr; try discriminate Hr.
  - lia.
  - rewrite (IH Hr), (pass_adds_a_pass _ _ _ _ _ _ _ _ Hp). lia.
Qed.

(** A loop that was left through [break] has made at least one pass. *)
Lemma loop_left_after_a_pass (time0 : Time) (fuel : nat) (x : Point)
    (iter : Z) (prev : option float) (st : St) (ex : Exit) (st' : St) :
  run_loop rhs self problem time0 fuel x iter prev st (Ok ex) st' ->
  (passes (trace st) < passes (trace st'))%nat.
Proof.
  intros Hrun.
  refine (run_loop_invariant rhs self problem time0
            (fun _ _ st1 => (passes (trace st) <= passes (trace st1))%nat)
            (fun r1 st1 =>
               match r1 with
               | Ok _ => (passes (trace st) < passes (trace st1))%nat
               | _ => True
               end) _ _ _ _ _ _ _ _ _ Hrun _); [auto | | lia].
  intros x1 i p st1 r1 st2 HI Hp.
  destruct r1 as [[b ex1] | e |]; auto.
  rewrite (pass_adds_a_pass _ _ _ _ _ _ _ _ Hp). destruct b; lia.
Qed.

End Records.

(** C4: With log verbosity 2 or more, the i-th record appended (counting
    from 0) carries the iteration index i + 1, so the indices in the log
    are 1, 2, 3, ... in the order of appending, and there is exactly one
    record per pass through the loop body that got to line 65.  The count
    is tied to the run: a call that is still running after the passes it
    was given has that many records; a call that returns has at least one
    record, and as many as the iteration count of the terminal record of
    the log it returns.  The one other case is a call that ends before the
    loop, at lines 44-55: it makes no pass and leaves the log it found. *)
Theorem iteration_records_count_from_one (rhs : Rhs)
    (linesearch : option Obj) (self : Solver) (problem : Problem)
    (x : option Point) (fuel : nat) (w : W) (log : OptLog) :
  2 <= _logverbosity self ->
  let run :=
    solve_body rhs linesearch self problem x fuel (initial w log) in
  let recs := log_iterations (optlog (snd run)) in
  ((map rec_iteration recs = counting (List.length recs)
    /\ List.length recs = passes (trace (snd run)))
   \/ ((exists e, fst run = Exc e)
       /\ optlog (snd run) = log /\ passes (trace (snd run)) = 0%nat))
  /\ (fst run = Running ->
      map rec_iteration recs = counting fuel
      /\ passes (trace (snd run)) = fuel)
  /\ (forall res,
        fst run = Ok res ->
        exists xf t,
          res = RPair xf (optlog (snd run))
          /\ log_final (optlog (snd run)) = Some t
          /\ fin_iteration t = Z.of_nat (List.length recs)
          /\ map rec_iteration recs = counting (List.length recs)
          /\ 1 <= fin_iteration t).
Proof.
  intros Hv run recs.
  pose proof (solve_solved rhs self problem linesearch x fuel (initial w log))
    as Hs.
  unfold recs. clear recs.
  fold run in Hs. clearbody run. destruct run as [r st']. cbn [fst snd] in *.
  assert (Hlen : forall st, numbered st ->
            List.length (log_iterations (optlog st)) = passes (trace st)).
  { intros st H. unfold numbered in H.
    rewrite <- (length_map rec_iteration), H. apply counting_length. }
  assert (Hloop : forall x0 t0 st1 r0 st2,
    begun problem linesearch x (initial w log) (Ok (x0, t0)) st1 ->
    run_loop rhs self problem t0 fuel x0 0 None st1 r0 st2 ->
    numbered st2 /\ passes (trace st1) = 0%nat).
  { intros x0 t0 st1 r0 st2 Hb Hl.
    apply begun_in_step in Hb. destruct Hb as ((Hn & _) & Hlog & _).
    assert (H0 : passes (trace st1) = 0%nat) by lia.
    split; [| exact H0].
    apply (loop_numbered _ _ _ _ _ _ _ _ _ _ _ Hv Hl Hn).
    unfold numbered. rewrite Hlog, H0. reflexivity. }
  inversion Hs as [e st1 Hb
                  | x0 t0 st1 e st2 Hb Hl
                  | x0 t0 st1 st2 Hb Hl
                  | x0 t0 st1 ex st2 r' st3 Hb Hl Hf]; subst.
  - split; [| split; [discriminate | discriminate]].
    right. split; [eauto |].
    inversion Hb; subst; cbn [initial optlog trace app];
      (split; [reflexivity |]); try destruct x; read_trace; reflexivity.
  - destruct (Hloop _ _ _ _ _ Hb Hl) as [Hnum _].
    split; [| split; [discriminate | discriminate]].
    left. rewrite (Hlen _ Hnum). split; [exact Hnum | reflexivity].
  - destruct (Hloop _ _ _ _ _ Hb Hl) as [Hnum H0].
    pose proof (loop_running _ _ _ _ _ _ _ _ _ _ _ Hl eq_refl) as Hp.
    rewrite H0 in Hp. cbn in Hp.
    split; [| split; [| discriminate]].
    + left. rewrite (Hlen _ Hnum). split; [exact Hnum | reflexivity].
    + intros _. unfold numbered in Hnum. rewrite Hnum, Hp. auto.
  - destruct (Hloop _ _ _ _ _ Hb Hl) as [Hnum H0].
    pose proof (begun_in_step _ _ _ _ _ _ _ _ Hb) as (Hstep & _).
    pose proof (loop_in_step _ _ _ _ _ _ _ _ _ _ _ Hl Hstep) as (Hn & _).
    pose proof (loop_left_after_a_pass _ _ _ _ _ _ _ _ _ _ _ Hl) as Hpos.
    inversion Hf as [Hv0 | e w1 Hv1 Hc | fx w1 now w2 Hv1 Hc Hclk]; subst;
      [lia | |].
    + split; [| split; [discriminate | discriminate]].
      left. unfold numbered in *. cbn [optlog trace].
      rewrite passes_app, Nat.add_0_r, <- (Hlen _ Hnum).
      split; [| reflexivity].
      rewrite Hnum, (Hlen _ Hnum). reflexivity.
    + assert (Hidx : map rec_iteration (log_iterations (optlog st2))
                     = counting (List.length (log_iterations (optlog st2)))).
      { unfold numbered in Hnum. rewrite (Hlen _ Hnum). exact Hnum. }
      cbn [optlog trace closed log_iterations log_final fin_iteration].
      rewrite passes_app, Nat.add_0_r.
      split; [| split; [discriminate |]].
      * left. split; [exact Hidx | apply Hlen, Hnum].
      * intros res [= <-].
        eexists _, _. split; [reflexivity |]. split; [reflexivity |].
        cbn [fin_iteration].
        split; [| split; [exact Hidx |]]; rewrite <- Hn, ?(Hlen _ Hnum); lia.
Qed.


(** C10: A call that returns with log verbosity 1 or more has evaluated the
    cost once in each pass through the loop and once more after the loop, at
    the point it returns: that last evaluation is the last call of the whole
    run, its value is the cost of the terminal record, and with N passes the
    cost was evaluated N + 1 times. *)
Theorem final_cost_is_one_more_evaluation (rhs : Rhs)
    (linesearch : option Obj) (self : Solver) (problem : Problem)
    (x : option Point) (fuel : nat) (w : W) (log : OptLog) (res : Result) :
  let run :=
    solve_body rhs linesearch self problem x fuel (initial w log) in
  1 <= _logverbosity self ->
  fst run = Ok res ->
  exists (pre : list Event) (xf : Point) (fx : float) (lg : OptLog),
    trace (snd run) = (pre ++ [EvCost xf (inr fx)])%list
    /\ res = RPair xf lg
    /\ option_map fin_cost (log_final lg) = Some fx
    /\ option_map fin_iteration (log_final lg)
       = Some (Z.of_nat (passes (trace (snd run))))
    /\ List.length (cost_calls pre) = passes (trace (snd run))
    /\ List.length (cost_calls (trace (snd run)))
       = S (passes (trace (snd run))).
Proof.
  intros run Hv Hres.
  pose proof (solve_solved rhs self problem linesearch x fuel (initial w log))
    as Hs.
  fold run in Hs. clearbody run. destruct run as [r st']. cbn [fst snd] in *.
  subst r. apply solved_returns in Hs.
  destruct Hs as (x0 & t0 & st1 & ex & st2 & Hb & Hl & Hf).
  pose proof (begun_in_step _ _ _ _ _ _ _ _ Hb) as (Hstep & _).
  pose proof (loop_in_step _ _ _ _ _ _ _ _ _ _ _ Hl Hstep) as (Hn & Hc & _).
  inversion Hf as [Hv0 | | fx w1 now w2 Hv1 Hcost Hclk]; subst; [lia |].
  exists (trace st2), (e_x ex), fx. eexists. cbn [trace].
  split; [reflexivity |]. split; [reflexivity |].
  cbn [closed log_final option_map fin_cost fin_iteration].
  rewrite passes_app, cost_calls_app, length_app.
  replace (passes [EvCost (e_x ex) (inr fx)]) with 0%nat by reflexivity.
  replace (List.length (cost_calls [EvCost (e_x ex) (inr fx)]))
    with 1%nat by reflexivity.
  rewrite Nat.add_0_r, Hc, Hn. repeat split. lia.
Qed.

(** ** What is printed *)

Lemma combine_app_same {A B} (a a' : list A) (b b' : list B) :
  List.length a = List.length b ->
  combine (a ++ a') (b ++ b') = (combine a b ++ combine a' b')%list.
Proof.
  revert b. induction a as [|u a IH]; intros [|v b] H; cbn in *;
    try discriminate; [reflexivity |].
  f_equal. apply IH. now injection H.
Qed.

Lemma combine_nothing {A B} (a : list A) : combine a (@nil B) = [].
Proof. now destruct a. Qed.

(** A pass that does not get to line 65 adds no row. *)
Lemma rows_same (tr X : list Event) :
  List.length (costs tr) = passes tr ->
  norms X = [] ->
  rows (tr ++ X) = rows tr.
Proof.
  intros Hc Hn. unfold rows.
  rewrite passes_app, costs_app, norms_app. unfold passes at 2.
  rewrite Hn. cbn [List.length]. rewrite Nat.add_0_r.
  rewrite <- (app_nil_r (norms tr)) at 2.
  rewrite (combine_app_same _ _ _ _ Hc), combine_nothing, !app_nil_r.
  reflexivity.
Qed.

(** A pass that gets to line 65 adds the row of its counter, cost and
    gradient norm. *)
Lemma rows_next (tr X : list Event) (c : float) (x : Point) (gn : float) :
  List.length (costs tr) = passes tr ->
  costs X = [c] ->
  norms X = [(x, gn)] ->
  rows (tr ++ X)
  = (rows tr ++ [(Z.of_nat (passes tr) + 1, (c, (x, gn)))])%list.
Proof.
  intros Hc HcX HnX. unfold rows.
  rewrite passes_app, costs_app, norms_app. unfold passes at 2.
  rewrite HcX, HnX. cbn [List.length]. rewrite counting_next.
  rewrite (combine_app_same _ _ _ _ Hc).
  rewrite combine_app_same; [reflexivity |].
  rewrite counting_length, length_combine, Hc. unfold passes. lia.
Qed.

Section Printing.

Variable rhs : Rhs.
Variable self : Solver.
Variable problem : Problem.
Hypothesis verbose : 2 <= verbosity problem.






End Printing.


(** ** A gradient that raises *)

Section Raising.

Variable rhs : Rhs.
Variable self : Solver.
Variable problem : Problem.

Lemma logged_length (l : OptLog) (iter : Z) (x : Point) (c gn : float)
    (n : nat) :
  List.length (log_iterations l) = appended self n ->
  List.length (log_iterations (logged self l iter x c gn))
  = appended self (n + 1).
Proof.
  unfold logged, appended. destruct (2 <=? _logverbosity self); cbn;
    [| auto]. rewrite length_app. cbn. lia.
Qed.

Lemma returned_inr {A B : Type} (a : A) (b : B) : returned (a, @inr E B b).
Proof. now exists b. Qed.

Lemma pass_grad_ok (time0 : Time) (x : Point) (iter : Z)
    (prev : option float) (st : St) (r : res (bool * Exit)) (st' : St) :
  pass rhs self problem time0 x iter prev st r st' ->
  grad_ok self st ->
  match r with
  | Ok (false, _) => grad_ok self st'
  | Ok (true, ex) => grad_ok_or_last self (Ok ex) st'
  | Exc e => grad_ok_or_last self (Exc e) st'
  | Running => True
  end.
Proof.
  intros Hp (Hall & Hlen & Hlog).
  assert (Hnext : forall X g l',
    grad_calls X = [(x, inr g)] -> passes X = 1%nat ->
    List.length (log_iterations l') = appended self (passes (trace st) + 1) ->
    grad_ok self (mkSt (world st') l' (trace st ++ X))).
  { intros X g l' HX HpX Hl'. unfold grad_ok. cbn [trace optlog].
    rewrite grad_calls_app, passes_app, HX, HpX, length_app, Hlen.
    cbn [List.length]. repeat split; auto.
    apply Forall_app. split; [exact Hall |].
    constructor; [apply returned_inr | constructor]. }
  assert (Hweak : forall st1 rr, grad_ok self st1 -> grad_ok_or_last self rr st1).
  { intros st1 rr (H & _). now left. }
  invert_pass Hp.
  - left. cbn [trace]. rewrite grad_calls_app. cbn. now rewrite app_nil_r.
  - right. exists (grad_calls (trace st)), x, e. cbn [trace optlog].
    rewrite grad_calls_app, passes_app. cbn.
    rewrite Nat.add_0_r, <- Hlen. repeat split; auto.
    now rewrite Hlen.
  - left. cbn [trace]. rewrite grad_calls_app. cbn.
    apply Forall_app. split; [exact Hall |].
    constructor; [apply returned_inr | constructor].
  - apply Hweak. apply (Hnext _ g); [read_trace; reflexivity ..|].
    now apply logged_length.
  - apply Hweak. apply (Hnext _ g); [read_trace; reflexivity ..|].
    now apply logged_length.
  - assert (Hg : grad_ok self
      (mkSt w5 (logged self (optlog st) (iter + 1) x c gn)
         (trace st ++ head_events problem x (iter + 1) c g gn
            ++ [EvStep (mkLocals x (iter + 1) time0 c g gn (neg g) prev)
                  (inr (s, x'));
                EvCheck time0 s gn (iter + 1) (inr reason)]
            ++ bye problem reason))).
    { apply (Hnext _ g); [read_trace; reflexivity ..|].
      now apply logged_length. }
    destruct (truthy reason); [now apply Hweak | exact Hg].
Qed.

Lemma loop_grad_ok (time0 : Time) (fuel : nat) (x : Point) (iter : Z)
    (prev : option float) (st : St) (r : res Exit) (st' : St) :
  run_loop rhs self problem time0 fuel x iter prev st r st' ->
  grad_ok self st -> grad_ok_or_last self r st'.
Proof.
  intros Hrun.
  refine (run_loop_invariant rhs self problem time0
            (fun _ _ st1 => grad_ok self st1) (grad_ok_or_last self)
            _ _ _ _ _ _ _ _ _ Hrun).
  - intros _ _ st1 (H & _). now left.
  - intros x1 i p st1 r1 st2 HI Hp.
    pose proof (pass_grad_ok _ _ _ _ _ _ _ Hp HI) as H.
    destruct r1 as [[[] ex] | e |]; auto.
Qed.

(** If the call numbered [k] (from 0) of the gradient raised [e], the call
    of [solve] raised [e] after [k] passes and [k] appended records. *)
Lemma raising_gradient_is_last (r : res Exit) (st : St) (k : nat)
    (y : Point) (e : E) :
  grad_ok_or_last self r st ->
  nth_error (grad_calls (trace st)) k = Some (y, inl e) ->
  r = Exc (Propagated e)
  /\ List.length (grad_calls (trace st)) = S k
  /\ passes (trace st) = k
  /\ List.length (log_iterations (optlog st)) = appended self k.
Proof.
  intros [Hall | (pre & y' & e' & Hg & Hall & Hr & Hp & Hl)] Hnth.
  - apply nth_error_In in Hnth.
    rewrite Forall_forall in Hall. destruct (Hall _ Hnth) as [b Hb].
    discriminate Hb.
  - rewrite Hg in Hnth. rewrite Hg, length_app. cbn [List.length].
    destruct (Nat.lt_ge_cases k (List.length pre)) as [Hlt | Hge].
    + rewrite nth_error_app1 in Hnth by exact Hlt.
      apply nth_error_In in Hnth.
      rewrite Forall_forall in Hall. destruct (Hall _ Hnth) as [b Hb].
      discriminate Hb.
    + rewrite nth_error_app2 in Hnth by exact Hge.
      destruct (k - List.length pre)%nat as [|m] eqn:Hk.
      * cbn in Hnth. injection Hnth as -> ->.
        assert (k = List.length pre) by lia. subst k.
        repeat split; auto. lia.
      * cbn in Hnth. destruct m; discriminate Hnth.
Qed.

End Raising.

(** C6: If the third evaluation of the gradient that [solve] makes raises,
    the call of [solve] ends there with what the gradient raised: it
    returns nothing, three gradient evaluations and two full passes have
    been made, and the log holds the two records of those passes (none with
    log verbosity below 2), not a third. *)
Theorem third_gradient_raising_aborts (rhs : Rhs) (linesearch : option Obj)
    (self : Solver) (problem : Problem) (x : option Point) (fuel : nat)
    (w : W) (log : OptLog) (y : Point) (e : E) :
  let run :=
    solve_body rhs linesearch self problem x fuel (initial w log) in
  nth_error (grad_calls (trace (snd run))) 2 = Some (y, inl e) ->
  fst run = Exc (Propagated e)
  /\ List.length (grad_calls (trace (snd run))) = 3%nat
  /\ passes (trace (snd run)) = 2%nat
  /\ List.length (log_iterations (optlog (snd run)))
     = if 2 <=? _logverbosity self then 2%nat else 0%nat.
Proof.
  intros run Hnth.
  pose proof (solve_solved rhs self problem linesearch x fuel (initial w log))
    as Hs.
  fold run in Hs. clearbody run. destruct run as [r st']. cbn [fst snd] in *.
  assert (Hnone : forall r0 st1,
    begun problem linesearch x (initial w log) r0 st1 ->
    grad_calls (trace st1) = [] /\ passes (trace st1) = 0%nat).
  { intros r0 st1 Hb.
    inversion Hb; subst; cbn [initial trace app];
      try destruct x; read_trace; auto. }
  assert (Hready : forall x0 t0 st1,
    begun problem linesearch x (initial w log) (Ok (x0, t0)) st1 ->
    grad_ok self st1).
  { intros x0 t0 st1 Hb. destruct (Hnone _ _ Hb) as [Hg Hp].
    unfold grad_ok. rewrite Hg, Hp.
    inversion Hb; subst. cbn [optlog log_iterations List.length].
    unfold appended.
    repeat split; [constructor |]. now destruct (2 <=? _logverbosity self). }
  inversion Hs as [e0 st1 Hb
                  | x0 t0 st1 e0 st2 Hb Hl
                  | x0 t0 st1 st2 Hb Hl
                  | x0 t0 st1 ex st2 r' st3 Hb Hl Hf]; subst.
  - destruct (Hnone _ _ Hb) as [Hg _]. rewrite Hg in Hnth. discriminate.
  - pose proof (loop_grad_ok _ _ _ _ _ _ _ _ _ _ _ Hl (Hready _ _ _ Hb)) as H.
    destruct (raising_gradient_is_last _ _ _ _ _ _ H Hnth)
      as (Hr & Hlen & Hp & Hlog).
    injection Hr as ->. auto.
  - pose proof (loop_grad_ok _ _ _ _ _ _ _ _ _ _ _ Hl (Hready _ _ _ Hb)) as H.
    destruct (raising_gradient_is_last _ _ _ _ _ _ H Hnth) as (Hr & _).
    discriminate Hr.
  - pose proof (loop_grad_ok _ _ _ _ _ _ _ _ _ _ _ Hl (Hready _ _ _ Hb)) as H.
    assert (Hsame : grad_calls (trace st') = grad_calls (trace st2)).
    { inversion Hf; subst; cbn [trace]; rewrite ?grad_calls_app; cbn;
        now rewrite ?app_nil_r. }
    rewrite Hsame in Hnth.
    destruct (raising_gradient_is_last _ _ _ _ _ _ H Hnth) as (Hr & _).
    discriminate Hr.
Qed.

(** ** A stopping check that never gives a reason *)

Section NoExit.

Variable rhs : Rhs.
Variable self : Solver.
Variable problem : Problem.

Hypothesis cost_returns :
  forall x w, exists c, fst (cost problem x w) = inr c.
Hypothesis grad_returns :
  forall x w, exists g, fst (grad problem x w) = inr g.
Hypothesis norm_returns :
  forall x g w, exists gn, fst (norm (manifold problem) x g w) = inr gn.
Hypothesis step_returns :
  forall l w, exists sx, fst (rhs self problem l w) = inr sx.
Hypothesis no_reason :
  forall t s gn i w,
    exists r, fst (_check_stopping_criterion self t s gn i w) = inr r
              /\ truthy r = false.

Lemma pass_goes_on (time0 : Time) (x : Point) (iter : Z)
    (prev : option float) (st : St) (r : res (bool * Exit)) (st' : St) :
  pass rhs self problem time0 x iter prev st r st' ->
  exists ex, r = Ok (false, ex)
             /\ passes (trace st') = (passes (trace st) + 1)%nat.
Proof.
  intros Hp.
  invert_pass Hp;
    repeat match goal with
      | H : cost problem ?x ?w = (inl _, _) |- _ =>
          destruct (cost_returns x w) as [? Hx]; rewrite H in Hx;
          discriminate Hx
      | H : grad problem ?x ?w = (inl _, _) |- _ =>
          destruct (grad_returns x w) as [? Hx]; rewrite H in Hx;
          discriminate Hx
      | H : norm _ ?x ?g ?w = (inl _, _) |- _ =>
          destruct (norm_returns x g w) as [? Hx]; rewrite H in Hx;
          discriminate Hx
      | H : rhs _ _ ?l ?w = (inl _, _) |- _ =>
          destruct (step_returns l w) as [? Hx]; rewrite H in Hx;
          discriminate Hx
      | H : _check_stopping_criterion _ ?t ?s ?gn ?i ?w = (inl _, _) |- _ =>
          destruct (no_reason t s gn i w) as [? [Hx _]]; rewrite H in Hx;
          discriminate Hx
      end.
  match goal with
  | H : _check_stopping_criterion _ ?t ?s ?gn ?i ?w = (inr _, _) |- _ =>
      destruct (no_reason t s gn i w) as [r0 [Hx Hr0]]; rewrite H in Hx;
      cbn [fst] in Hx; injection Hx as <-
  end.
  rewrite Hr0. eexists. split; [reflexivity |]. cbn [trace].
  read_trace; lia.
Qed.

Lemma loop_never_exits (time0 : Time) (fuel : nat) (x : Point) (iter : Z)
    (prev : option float) (st : St) (r : res Exit) (st' : St) :
  run_loop rhs self problem time0 fuel x iter prev st r st' ->
  r = Running /\ passes (trace st') = (passes (trace st) + fuel)%nat.
Proof.
  intros Hrun.
  induction Hrun as [x iter prev st
                    |fuel x iter prev st e st' Hp
                    |fuel x iter prev st ex st' Hp
                    |fuel x iter prev st ex st' r st'' Hp Hrun IH].
  - split; [reflexivity | lia].
  - apply pass_goes_on in Hp. destruct Hp as (ex & Hex & _). discriminate.
  - apply pass_goes_on in Hp. destruct Hp as (ex' & Hex & _). discriminate.
  - apply pass_goes_on in Hp. destruct Hp as (ex' & _ & Hn).
    destruct IH as [-> IH]. split; [reflexivity | lia].
Qed.

End NoExit.

(** C2 (as amended): [solve] does not look at the stopping thresholds and
    rejects no configuration.  When the stopping check never gives a reason
    (no threshold can be reached) and no collaborator raises, a call with
    the name [linesearch] bound enters the loop and does not leave it:
    however many passes it is given, it has made them all and is still
    running.  With the name unbound, as in the file, the same call ends at
    line 55 with [NameError]. *)
Theorem unreachable_thresholds_are_not_rejected (rhs : Rhs) (self : Solver)
    (problem : Problem) (x : option Point) (fuel : nat) (w : W)
    (log : OptLog) :
  (forall x w, exists c, fst (cost problem x w) = inr c) ->
  (forall x w, exists g, fst (grad problem x w) = inr g) ->
  (forall x g w, exists gn,
      fst (norm (manifold problem) x g w) = inr gn) ->
  (forall l w, exists sx, fst (rhs self problem l w) = inr sx) ->
  (forall t s gn i w,
      exists r, fst (_check_stopping_criterion self t s gn i w) = inr r
                /\ truthy r = false) ->
  (exists x0, fst (first_point problem x w) = inr x0) ->
  (forall ls,
      let run :=
        solve_body rhs (Some ls) self problem x fuel (initial w log) in
      fst run = Running /\ passes (trace (snd run)) = fuel)
  /\ fst (solve_body rhs None self problem x fuel (initial w log))
     = Exc (NameError "linesearch").
Proof.
  intros Hc Hg Hn Hs Hk [x0 Hx0]. split.
  - intros ls run.
    pose proof (solve_solved rhs self problem (Some ls) x fuel
                  (initial w log)) as Hsol.
    fold run in Hsol. clearbody run. destruct run as [r st'].
    cbn [fst snd] in *.
    assert (Hloop : forall x1 t0 st1 r1 st2,
      begun problem (Some ls) x (initial w log) (Ok (x1, t0)) st1 ->
      run_loop rhs self problem t0 fuel x1 0 None st1 r1 st2 ->
      r1 = Running /\ passes (trace st2) = fuel).
    { intros x1 t0 st1 r1 st2 Hb Hl.
      destruct (loop_never_exits rhs self problem Hc Hg Hn Hs Hk
                  _ _ _ _ _ _ _ _ Hl) as [-> Hp].
      split; [reflexivity |]. rewrite Hp.
      destruct (begun_in_step _ _ _ _ _ _ _ _ Hb) as ((H0 & _) & _). lia. }
    inversion Hsol as [e st1 Hb
                      | x1 t0 st1 e st2 Hb Hl
                      | x1 t0 st1 st2 Hb Hl
                      | x1 t0 st1 ex st2 r' st3 Hb Hl Hf]; subst.
    + inversion Hb as [e' w1 Hx Hr | x1 w1 t0 w2 Hls | ]; subst.
      * cbn [first_point initial world] in *. rewrite Hr in Hx0.
        discriminate Hx0.
      * discriminate Hls.
    + destruct (Hloop _ _ _ _ _ Hb Hl) as [Hr _]. discriminate Hr.
    + now destruct (Hloop _ _ _ _ _ Hb Hl) as [_ Hp].
    + destruct (Hloop _ _ _ _ _ Hb Hl) as [Hr _]. discriminate Hr.
  - destruct (linesearch_unbound_before_loop rhs self problem x fuel w log)
      as [Hr _].
    rewrite Hr, Hx0. reflexivity.
Qed.

(** ** Properties that hold piece by piece *)

Lemma time_reads_app (a b : list Event) :
  time_reads (a ++ b) = (time_reads a ++ time_reads b)%list.
Proof. apply flat_map_app. Qed.

Lemma check_args_app (a b : list Event) :
  check_args (a ++ b) = (check_args a ++ check_args b)%list.
Proof. apply flat_map_app. Qed.

Lemma step_args_app (a b : list Event) :
  step_args (a ++ b) = (step_args a ++ step_args b)%list.
Proof. apply flat_map_app. Qed.

Lemma step_points_app (a b : list Event) :
  step_points (a ++ b) = (step_points a ++ step_points b)%list.
Proof. apply flat_map_app. Qed.

Lemma cost_points_app (a b : list Event) :
  cost_points (a ++ b) = (cost_points a ++ cost_points b)%list.
Proof. unfold cost_points. now rewrite cost_calls_app, map_app. Qed.

Lemma grad_points_app (a b : list Event) :
  grad_points (a ++ b) = (grad_points a ++ grad_points b)%list.
Proof. unfold grad_points. now rewrite grad_calls_app, map_app. Qed.

Lemma grads_app (a b : list Event) :
  grads (a ++ b) = (grads a ++ grads b)%list.
Proof. apply flat_map_app. Qed.

Lemma norm_args_app (a b : list Event) :
  norm_args (a ++ b) = (norm_args a ++ norm_args b)%list.
Proof. apply flat_map_app. Qed.

Lemma check_results_app (a b : list Event) :
  check_results (a ++ b) = (check_results a ++ check_results b)%list.
Proof. apply flat_map_app. Qed.

Lemma raised_app (a b : list Event) :
  raised (a ++ b) = (raised a ++ raised b)%list.
Proof. apply flat_map_app. Qed.

Lemma farewells_app (a b : list (option string)) :
  farewells (a ++ b) = (farewells a ++ farewells b)%list.
Proof. apply flat_map_app. Qed.

Section Additive.

Variable rhs : Rhs.
Variable self : Solver.
Variable problem : Problem.

(** A property of traces that holds of the empty trace, of each piece, and
    of [a ++ b] when it holds of [a] and [b]. *)
Variable P : list Event -> Prop.
Hypothesis P_nil : P [].
Hypothesis P_app : forall a b, P a -> P b -> P (a ++ b).
Hypothesis P_piece : forall X, piece problem X -> P X.

Lemma pass_additive (time0 : Time) (x : Point) (iter : Z)
    (prev : option float) (st : St) (r : res (bool * Exit)) (st' : St) :
  pass rhs self problem time0 x iter prev st r st' ->
  P (trace st) -> P (trace st').
Proof.
  intros Hp Hst.
  inversion Hp; subst; cbn [trace]; apply P_app; try exact Hst;
    apply P_piece.
  - apply piece_cost_raises.
  - apply piece_grad_raises.
  - apply piece_norm_raises.
  - now apply piece_step_raises.
  - now apply (piece_check_raises problem x (iter + 1) c g gn
                 (mkLocals x (iter + 1) time0 c g gn (neg g) prev)).
  - now apply (piece_done problem x (iter + 1) c g gn
                 (mkLocals x (iter + 1) time0 c g gn (neg g) prev)).
Qed.

Lemma loop_additive (time0 : Time) (fuel : nat) (x : Point) (iter : Z)
    (prev : option float) (st : St) (r : res Exit) (st' : St) :
  run_loop rhs self problem time0 fuel x iter prev st r st' ->
  P (trace st) -> P (trace st').
Proof.
  intros Hrun.
  refine (run_loop_invariant rhs self problem time0
            (fun _ _ st1 => P (trace st1)) (fun _ st1 => P (trace st1))
            _ _ _ _ _ _ _ _ _ Hrun); [auto |].
  intros x1 i p st1 r1 st2 HI Hp.
  pose proof (pass_additive _ _ _ _ _ _ _ Hp HI) as H.
  destruct r1 as [[[] ex] | e |]; auto.
Qed.

Lemma begun_additive (linesearch : option Obj) (x : option Point) (st : St)
    (r : res (Point * Time)) (st' : St) :
  begun problem linesearch x st r st' ->
  P (trace st) -> P (trace st').
Proof.
  intros Hb Hst.
  inversion Hb; subst; cbn [trace]; apply P_app; try exact Hst;
    apply P_piece; constructor.
Qed.

Lemma finished_additive (time0 : Time) (ex : Exit) (st : St)
    (r : res Result) (st' : St) :
  finished self problem time0 ex st r st' ->
  P (trace st) -> P (trace st').
Proof.
  intros Hf Hst.
  inversion Hf; subst; cbn [trace]; try exact Hst;
    apply P_app; try exact Hst; apply P_piece; constructor.
Qed.

(** Such a property holds of the trace of every call. *)
Lemma solve_additive (linesearch : option Obj) (x : option Point)
    (fuel : nat) (w : W) (log : OptLog) :
  P (trace (snd (solve_body rhs linesearch self problem x fuel
                   (initial w log)))).
Proof.
  pose proof (solve_solved rhs self problem linesearch x fuel (initial w log))
    as Hs.
  destruct (solve_body rhs linesearch self problem x fuel (initial w log))
    as [r st']. cbn [fst snd] in *.
  assert (H0 : P (trace (initial w log))) by exact P_nil.
  inversion Hs as [e st1 Hb
                  | x0 t0 st1 e st2 Hb Hl
                  | x0 t0 st1 st2 Hb Hl
                  | x0 t0 st1 ex st2 r' st3 Hb Hl Hf]; subst;
    apply begun_additive in Hb; auto.
  - eapply loop_additive; eauto.
  - eapply loop_additive; eauto.
  - eapply finished_additive; eauto. eapply loop_additive; eauto.
Qed.

End Additive.

(** [read_trace] for the further readings. *)
Ltac read_more :=
  rewrite ?time_reads_app, ?check_args_app, ?step_args_app, ?step_points_app,
    ?cost_points_app, ?grad_points_app, ?grads_app, ?norm_args_app,
    ?check_results_app, ?raised_app;
  unfold head_events, bye, start_events;
  repeat match goal with
         | |- context [if ?b then _ else _] => destruct b
         end;
  cbn; rewrite ?app_nil_r.

(** Case analysis on a piece, with the prints it may hold spelled out. *)
Ltac on_pieces H :=
  inversion H; subst; unfold head_events, bye, start_events;
  repeat match goal with
         | |- context [if ?b then _ else _] => destruct b eqn:?
         | |- context [match ?x with Some _ => _ | None => _ end] =>
             destruct x
         end;
  cbn.

(** X1: Every evaluation of line 77 that returns is followed by one
    stopping check, and each stopping check is given the [time0] and the
    gradient norm and counter that evaluation saw and the step size it
    returned: the arguments of the checks, in order, are exactly those. *)
Theorem stopping_check_gets_the_step (rhs : Rhs) (linesearch : option Obj)
    (self : Solver) (problem : Problem) (x : option Point) (fuel : nat)
    (w : W) (log : OptLog) :
  let tr :=
    trace (snd (solve_body rhs linesearch self problem x fuel
                  (initial w log))) in
  check_args tr = step_args tr.
Proof.
  apply (solve_additive rhs self problem
           (fun tr => check_args tr = step_args tr)).
  - reflexivity.
  - intros a b Ha Hb. now rewrite check_args_app, step_args_app, Ha, Hb.
  - intros X HX. on_pieces HX; congruence.
Qed.

(** X2: The norm of line 64 is taken of what the gradient of line 63
    returned, at the same point, once for each gradient evaluation that
    returned and never otherwise. *)
Theorem norm_is_taken_of_the_gradient (rhs : Rhs) (linesearch : option Obj)
    (self : Solver) (problem : Problem) (x : option Point) (fuel : nat)
    (w : W) (log : OptLog) :
  let tr :=
    trace (snd (solve_body rhs linesearch self problem x fuel
                  (initial w log))) in
  norm_args tr = grads tr.
Proof.
  apply (solve_additive rhs self problem
           (fun tr => norm_args tr = grads tr)).
  - reflexivity.
  - intros a b Ha Hb. now rewrite norm_args_app, grads_app, Ha, Hb.
  - intros X HX. on_pieces HX; congruence.
Qed.

(** X3: With console verbosity below 2 neither the header nor any
    per-iteration line is printed: the only output is, with verbosity 1, the
    reason of each stopping check that gave one followed by an empty line,
    and with verbosity 0 or less nothing at all. *)
Theorem quiet_below_verbosity_two (rhs : Rhs) (linesearch : option Obj)
    (self : Solver) (problem : Problem) (x : option Point) (fuel : nat)
    (w : W) (log : OptLog) :
  verbosity problem < 2 ->
  let tr :=
    trace (snd (solve_body rhs linesearch self problem x fuel
                  (initial w log))) in
  printed tr
  = if 1 <=? verbosity problem then farewells (check_results tr) else [].
Proof.
  intros Hv.
  apply (solve_additive rhs self problem
           (fun tr =>
              printed tr
              = if 1 <=? verbosity problem
                then farewells (check_results tr) else [])).
  - now destruct (1 <=? verbosity problem).
  - intros a b Ha Hb.
    rewrite printed_app, check_results_app, farewells_app, Ha, Hb.
    now destruct (1 <=? verbosity problem).
  - intros X HX.
    assert (H2 : (2 <=? verbosity problem) = false)
      by (apply Z.leb_gt; exact Hv).
    inversion HX; subst; unfold head_events, bye, start_events;
      rewrite ?H2; try destruct x0;
      destruct (1 <=? verbosity problem); try destruct (truthy reason) eqn:Ht;
      cbn; rewrite ?Ht; reflexivity.
Qed.

(** ** Exceptions *)

Section Ends.

Variable rhs : Rhs.
Variable self : Solver.
Variable problem : Problem.

Lemma propagated_last_intro (tr pre : list Event) (ev : Event) (e : E) :
  raised tr = [] -> raised pre = [] -> raising ev = Some e ->
  propagated_last e (tr ++ pre ++ [ev]).
Proof.
  intros Htr Hpre Hev. split.
  - rewrite !raised_app, Htr, Hpre. cbn. now rewrite Hev.
  - exists (tr ++ pre)%list, ev. now rewrite app_assoc.
Qed.

Lemma raised_head_events (x : Point) (iter : Z) (c : float) (g : Tangent)
    (gn : float) :
  raised (head_events problem x iter c g gn) = [].
Proof.
  unfold head_events. now destruct (2 <=? verbosity problem).
Qed.

Lemma raised_bye (reason : option string) : raised (bye problem reason) = [].
Proof.
  unfold bye. now destruct (truthy reason && (1 <=? verbosity problem)).
Qed.

Lemma pass_ends_clean (time0 : Time) (x : Point) (iter : Z)
    (prev : option float) (st : St) (r : res (bool * Exit)) (st' : St) :
  pass rhs self problem time0 x iter prev st r st' ->
  raised (trace st) = [] ->
  ends_clean r (trace st').
Proof.
  intros Hp Hst. inversion Hp; subst; cbn [trace ends_clean].
  - now apply (propagated_last_intro _ []).
  - now apply (propagated_last_intro _ [EvCost x (inr c)]).
  - now apply (propagated_last_intro _
                 [EvCost x (inr c); EvGrad x (inr g)]).
  - apply propagated_last_intro; auto. apply raised_head_events.
  - replace (head_events problem x (iter + 1) c g gn
               ++ [EvStep (mkLocals x (iter + 1) time0 c g gn (neg g) prev)
                     (inr (s, x'));
                   EvCheck time0 s gn (iter + 1) (inl e)])%list
      with ((head_events problem x (iter + 1) c g gn
               ++ [EvStep (mkLocals x (iter + 1) time0 c g gn (neg g) prev)
                     (inr (s, x'))])
              ++ [EvCheck time0 s gn (iter + 1) (inl e)])%list
      by (now rewrite <- app_assoc).
    apply propagated_last_intro; auto.
    rewrite raised_app, raised_head_events. reflexivity.
  - rewrite !raised_app, Hst, raised_head_events, raised_bye. reflexivity.
Qed.

Lemma loop_ends_clean (time0 : Time) (fuel : nat) (x : Point) (iter : Z)
    (prev : option float) (st : St) (r : res Exit) (st' : St) :
  run_loop rhs self problem time0 fuel x iter prev st r st' ->
  raised (trace st) = [] ->
  ends_clean r (trace st').
Proof.
  intros Hrun.
  refine (run_loop_invariant rhs self problem time0
            (fun _ _ st1 => raised (trace st1) = [])
            (fun r1 st1 => ends_clean r1 (trace st1))
            _ _ _ _ _ _ _ _ _ Hrun); [auto |].
  intros x1 i p st1 r1 st2 HI Hp.
  pose proof (pass_ends_clean _ _ _ _ _ _ _ Hp HI) as H.
  destruct r1 as [[[] ex] | e |]; auto.
Qed.

End Ends.

(** X4: [solve] catches nothing.  If a call ends with an exception of a
    collaborator ([man.rand], cost, gradient, norm, line 77, stopping check),
    that exception was raised by the last call made, and no earlier call
    raised; if it ends with [NameError] the name is [linesearch] and it was
    unbound; in every other case (the call returns, is still running, or ends
    with another exception of one of its own statements) no call it made has
    raised.  And an exception does end the call: when the cost raises on the
    first pass, the call ends with that exception, in the state the cost
    left. *)
Theorem exceptions_propagate_from_the_last_call (rhs : Rhs)
    (linesearch : option Obj) (self : Solver) (problem : Problem)
    (x : option Point) (fuel : nat) (w : W) (log : OptLog) :
  let run :=
    solve_body rhs linesearch self problem x fuel (initial w log) in
  match fst run with
  | Exc (Propagated e) =>
      raised (trace (snd run)) = [e]
      /\ exists pre ev,
           trace (snd run) = (pre ++ [ev])%list /\ raising ev = Some e
  | Exc (NameError name) =>
      name = "linesearch" /\ linesearch = None
      /\ raised (trace (snd run)) = []
  | _ => raised (trace (snd run)) = []
  end
  /\ (forall ls x0 t0 w1 e w2,
        linesearch = Some ls ->
        x = Some x0 ->
        fuel <> 0%nat ->
        time_time w = (t0, w1) ->
        cost problem x0 w1 = (inl e, w2) ->
        fst run = Exc (Propagated e)
        /\ world (snd run) = w2
        /\ cost_calls (trace (snd run)) = [(x0, inl e)]).
Proof.
  intros run.
  pose proof (solve_solved rhs self problem linesearch x fuel (initial w log))
    as Hs.
  fold run in Hs. clearbody run. destruct run as [r st']. cbn [fst snd] in *.
  assert (Hstart : forall x0 t0,
            raised (start_events problem x x0 t0) = []).
  { intros x0 t0. unfold start_events.
    destruct x; destruct (2 <=? verbosity problem); reflexivity. }
  assert (Hready : forall x0 t0 st1,
    begun problem linesearch x (initial w log) (Ok (x0, t0)) st1 ->
    raised (trace st1) = []).
  { intros x0 t0 st1 Hb. inversion Hb; subst. cbn [initial trace app].
    apply Hstart. }
  split.
  - inversion Hs as [e st1 Hb
                    | x0 t0 st1 e st2 Hb Hl
                    | x0 t0 st1 st2 Hb Hl
                    | x0 t0 st1 ex st2 r' st3 Hb Hl Hf]; subst.
    + inversion Hb as [e' w1 Hx Hr | x0 w1 t0 w2 Hls Hf Hc | ]; subst;
        cbn [initial trace app].
      * now apply (propagated_last_intro [] []).
      * repeat split. apply Hstart.
    + pose proof (loop_ends_clean _ _ _ _ _ _ _ _ _ _ _ Hl (Hready _ _ _ Hb))
        as H.
      destruct e; cbn in H; try contradiction; exact H.
    + exact (loop_ends_clean _ _ _ _ _ _ _ _ _ _ _ Hl (Hready _ _ _ Hb)).
    + pose proof (loop_ends_clean _ _ _ _ _ _ _ _ _ _ _ Hl (Hready _ _ _ Hb))
        as H. cbn in H.
      inversion Hf; subst; cbn [trace].
      * exact H.
      * now apply (propagated_last_intro _ []).
      * rewrite raised_app, H. reflexivity.
  - intros ls p t0 w1 e w2 Hls Hx Hfuel Hclk Hcost. subst linesearch x.
    destruct fuel as [| fuel]; [contradiction |].
    assert (Hpass : forall t x1 i pv st rp st2,
              pass rhs self problem t x1 i pv st rp st2 ->
              x1 = p -> world st = w1 -> cost_calls (trace st) = [] ->
              rp = Exc (Propagated e) /\ world st2 = w2
              /\ cost_calls (trace st2) = [(p, inl e)]).
    { intros t x1 i pv st rp st2 Hp -> Hw Hc.
      inversion Hp as [e1 wa Hk
                      | c wa e1 wb Hk
                      | c wa g wb e1 wc Hk
                      | c wa g wb gn wc e1 wd Hk
                      | c wa g wb gn wc s x2 wd e1 we Hk
                      | c wa g wb gn wc s x2 wd reason we Hk];
        rewrite Hw, Hcost in Hk; inversion Hk; subst.
      cbn [world trace]. rewrite cost_calls_app, Hc. auto. }
    assert (Hbegun : forall x0 t1 st1,
              begun problem (Some ls) (Some p) (initial w log) (Ok (x0, t1))
                st1 ->
              x0 = p /\ world st1 = w1 /\ cost_calls (trace st1) = []).
    { intros x0 t1 st1 Hb.
      inversion Hb as [| | ls' x1 w3 t2 w4 _ Hf Hc]; subst.
      cbn [first_point initial world] in Hf. inversion Hf; subst.
      rewrite Hclk in Hc. inversion Hc; subst.
      cbn [world trace initial app]. repeat split.
      unfold start_events. destruct (2 <=? verbosity problem); reflexivity. }
    assert (Hloop : forall x0 t1 st1 rl st2,
              begun problem (Some ls) (Some p) (initial w log) (Ok (x0, t1))
                st1 ->
              run_loop rhs self problem t1 (S fuel) x0 0 None st1 rl st2 ->
              rl = Exc (Propagated e) /\ world st2 = w2
              /\ cost_calls (trace st2) = [(p, inl e)]).
    { intros x0 t1 st1 rl st2 Hb Hl.
      destruct (Hbegun _ _ _ Hb) as (Hx0 & Hw & Hc).
      inversion Hl as [| f x1 i pv st e1 st3 Hp
                       | f x1 i pv st ex st3 Hp
                       | f x1 i pv st ex st3 r1 st4 Hp Hrest];
        destruct (Hpass _ _ _ _ _ _ _ Hp Hx0 Hw Hc) as (Hr & Hw2 & Hc2);
        try discriminate Hr.
      inversion Hr; subst. auto. }
    inversion Hs as [e1 st1 Hb
                    | x0 t1 st1 e1 st2 Hb Hl
                    | x0 t1 st1 st2 Hb Hl
                    | x0 t1 st1 ex st2 r' st3 Hb Hl Hf]; subst.
    + inversion Hb; congruence.
    + destruct (Hloop _ _ _ _ _ Hb Hl) as (Hr & Hw & Hc).
      inversion Hr; subst. auto.
    + destruct (Hloop _ _ _ _ _ Hb Hl) as (Hr & _). discriminate Hr.
    + destruct (Hloop _ _ _ _ _ Hb Hl) as (Hr & _). discriminate Hr.
Qed.

(** ** The stopping checks *)

Section Checks.

Variable rhs : Rhs.
Variable self : Solver.
Variable problem : Problem.

Lemma loop_one_reason (time0 : Time) (fuel : nat) (x : Point) (iter : Z)
    (prev : option float) (st : St) (r : res Exit) (st' : St) :
  run_loop rhs self problem time0 fuel x iter prev st r st' ->
  Forall falsy (check_results (trace st)) ->
  one_reason r (trace st').
Proof.
  intros Hrun.
  refine (run_loop_invariant rhs self problem time0
            (fun _ _ st1 => Forall falsy (check_results (trace st1)))
            (fun r1 st1 => one_reason r1 (trace st1))
            _ _ _ _ _ _ _ _ _ Hrun); [auto |].
  intros x1 i p st1 r1 st2 HI Hp.
  assert (Hsame : forall X, check_results X = [] ->
            Forall falsy (check_results (trace st1 ++ X))).
  { intros X HX. now rewrite check_results_app, HX, app_nil_r. }
  inversion Hp; subst; cbn [trace one_reason].
  - now apply Hsame.
  - now apply Hsame.
  - now apply Hsame.
  - apply Hsame. read_trace; reflexivity.
  - apply Hsame. read_trace; reflexivity.
  - assert (Hres : check_results
                     (trace st1 ++ head_events problem x1 (i + 1) c g gn
                        ++ [EvStep (mkLocals x1 (i + 1) time0 c g gn (neg g)
                                      p) (inr (s, x'));
                            EvCheck time0 s gn (i + 1) (inr reason)]
                        ++ bye problem reason)
                   = (check_results (trace st1) ++ [reason])%list).
    { read_more; reflexivity. }
    destruct (truthy reason) eqn:Htr; cbn [e_stop_reason].
    + exists (check_results (trace st1)). auto.
    + rewrite Hres. apply Forall_app. split; [exact HI |].
      constructor; [exact Htr | constructor].
Qed.

End Checks.

(** X5: The loop goes on exactly as long as the stopping checks give no
    reason ([None] or the empty text): at most one check of a call gives a
    reason, and it is the last check the call makes.  A call that returns
    has had that check; a call that is still running has had none. *)
Theorem only_the_last_check_gives_a_reason (rhs : Rhs)
    (linesearch : option Obj) (self : Solver) (problem : Problem)
    (x : option Point) (fuel : nat) (w : W) (log : OptLog) :
  let run :=
    solve_body rhs linesearch self problem x fuel (initial w log) in
  falsy (Some "") /\ falsy None
  /\ ((Forall falsy (check_results (trace (snd run)))
       /\ forall res, fst run <> Ok res)
      \/ (exists pre last,
            check_results (trace (snd run)) = (pre ++ [last])%list
            /\ Forall falsy pre /\ truthy last = true
            /\ fst run <> Running)).
Proof.
  intros run. split; [reflexivity |]. split; [reflexivity |].
  pose proof (solve_solved rhs self problem linesearch x fuel (initial w log))
    as Hs.
  fold run in Hs. clearbody run. destruct run as [r st']. cbn [fst snd] in *.
  assert (Hready : forall r0 st1,
    begun problem linesearch x (initial w log) r0 st1 ->
    Forall falsy (check_results (trace st1))).
  { intros r0 st1 Hb.
    replace (check_results (trace st1)) with (@nil (option string));
      [constructor |].
    inversion Hb; subst; cbn [initial trace app];
      try destruct x; read_trace; reflexivity. }
  inversion Hs as [e st1 Hb
                  | x0 t0 st1 e st2 Hb Hl
                  | x0 t0 st1 st2 Hb Hl
                  | x0 t0 st1 ex st2 r' st3 Hb Hl Hf]; subst.
  - left. split; [exact (Hready _ _ Hb) | discriminate].
  - left. split; [| discriminate].
    exact (loop_one_reason _ _ _ _ _ _ _ _ _ _ _ Hl (Hready _ _ Hb)).
  - left. split; [| discriminate].
    exact (loop_one_reason _ _ _ _ _ _ _ _ _ _ _ Hl (Hready _ _ Hb)).
  - right.
    pose proof (loop_one_reason _ _ _ _ _ _ _ _ _ _ _ Hl (Hready _ _ Hb))
      as (pre & Hres & Hpre & Htr).
    assert (Hsame : check_results (trace st') = check_results (trace st2)).
    { inversion Hf; subst; cbn [trace]; rewrite ?check_results_app; cbn;
        now rewrite ?app_nil_r. }
    rewrite Hsame. exists pre, (e_stop_reason ex).
    repeat split; auto. inversion Hf; discriminate.
Qed.

(** ** The points of a call *)

Lemma firstn_exact {A : Type} (a b : list A) :
  firstn (List.length a) (a ++ b) = a.
Proof.
  rewrite firstn_app, Nat.sub_diag, firstn_all. cbn. apply app_nil_r.
Qed.

Section Points.

Variable rhs : Rhs.
Variable self : Solver.
Variable problem : Problem.

Lemma chained_follows (x0 x : Point) (tr : list Event) :
  chained x0 x tr -> follows_steps x0 tr.
Proof.
  unfold chained, follows_steps. intros <-. now rewrite firstn_exact.
Qed.

Lemma chained_next (x0 x : Point) (tr X : list Event) :
  chained x0 x tr -> cost_points X = [x] -> step_points X = [] ->
  follows_steps x0 (tr ++ X).
Proof.
  unfold chained, follows_steps. intros H HcX HsX.
  rewrite cost_points_app, step_points_app, HcX, HsX, app_nil_r, <- H.
  now rewrite firstn_all.
Qed.

Lemma chained_step (x0 x x' : Point) (tr X : list Event) :
  chained x0 x tr -> cost_points X = [x] -> step_points X = [x'] ->
  chained x0 x' (tr ++ X).
Proof.
  unfold chained. intros H HcX HsX.
  rewrite cost_points_app, step_points_app, HcX, HsX.
  change (x0 :: step_points tr ++ [x'])%list
    with ((x0 :: step_points tr) ++ [x'])%list.
  now rewrite <- H.
Qed.

Lemma loop_follows (time0 : Time) (fuel : nat) (x0 x : Point) (iter : Z)
    (prev : option float) (st : St) (r : res Exit) (st' : St) :
  run_loop rhs self problem time0 fuel x iter prev st r st' ->
  chained x0 x (trace st) ->
  match r with
  | Ok ex => chained x0 (e_x ex) (trace st')
  | _ => follows_steps x0 (trace st')
  end.
Proof.
  intros Hrun.
  refine (run_loop_invariant rhs self problem time0
            (fun x1 _ st1 => chained x0 x1 (trace st1))
            (fun r1 st1 =>
               match r1 with
               | Ok ex => chained x0 (e_x ex) (trace st1)
               | _ => follows_steps x0 (trace st1)
               end) _ _ _ _ _ _ _ _ _ Hrun).
  - intros x1 _ st1 H. now apply chained_follows with (x := x1).
  - intros x1 i p st1 r1 st2 HI Hp.
    inversion Hp; subst; cbn [trace e_x].
    + now apply (chained_next x0 x1).
    + now apply (chained_next x0 x1).
    + now apply (chained_next x0 x1).
    + apply (chained_next x0 x1); [exact HI | read_more; reflexivity ..].
    + apply chained_follows with (x := x').
      apply (chained_step x0 x1); [exact HI | read_more; reflexivity ..].
    + assert (Hch : chained x0 x'
                    (trace st1 ++ head_events problem x1 (i + 1) c g gn
                       ++ [EvStep (mkLocals x1 (i + 1) time0 c g gn (neg g)
                                     p) (inr (s, x'));
                           EvCheck time0 s gn (i + 1) (inr reason)]
                       ++ bye problem reason)).
      { apply (chained_step x0 x1); [exact HI | read_more; reflexivity ..]. }
      now destruct (truthy reason).
Qed.

Lemma grad_after_cost_same (tr X : list Event) (extra : list Point) :
  cost_points tr = grad_points tr ->
  cost_points X = (grad_points X ++ extra)%list ->
  (List.length extra <= 1)%nat ->
  grad_after_cost (tr ++ X).
Proof.
  intros Htr HX Hle. exists extra.
  rewrite cost_points_app, grad_points_app, Htr, HX. split; [| exact Hle].
  now rewrite app_assoc.
Qed.

Lemma loop_grad_after_cost (time0 : Time) (fuel : nat) (x : Point)
    (iter : Z) (prev : option float) (st : St) (r : res Exit) (st' : St) :
  run_loop rhs self problem time0 fuel x iter prev st r st' ->
  cost_points (trace st) = grad_points (trace st) ->
  match r with
  | Ok _ => cost_points (trace st') = grad_points (trace st')
  | _ => grad_after_cost (trace st')
  end.
Proof.
  intros Hrun.
  refine (run_loop_invariant rhs self problem time0
            (fun _ _ st1 =>
               cost_points (trace st1) = grad_points (trace st1))
            (fun r1 st1 =>
               match r1 with
               | Ok _ => cost_points (trace st1) = grad_points (trace st1)
               | _ => grad_after_cost (trace st1)
               end) _ _ _ _ _ _ _ _ _ Hrun).
  - intros _ _ st1 H. exists []. rewrite app_nil_r. split; [exact H | cbn; lia].
  - intros x1 i p st1 r1 st2 HI Hp.
    assert (Hboth : forall X,
      cost_points X = [x1] -> grad_points X = [x1] ->
      cost_points (trace st1 ++ X) = grad_points (trace st1 ++ X)).
    { intros X Hc Hg. now rewrite cost_points_app, grad_points_app, HI, Hc, Hg. }
    inversion Hp; subst; cbn [trace].
    + apply (grad_after_cost_same _ _ [x1]);
        [exact HI | reflexivity | cbn; lia].
    + apply (grad_after_cost_same _ _ []);
        [exact HI | reflexivity | cbn; lia].
    + apply (grad_after_cost_same _ _ []);
        [exact HI | reflexivity | cbn; lia].
    + apply (grad_after_cost_same _ _ []); [exact HI | | cbn; lia].
      read_more; reflexivity.
    + apply (grad_after_cost_same _ _ []); [exact HI | | cbn; lia].
      read_more; reflexivity.
    + assert (Hch : cost_points
                    (trace st1 ++ head_events problem x1 (i + 1) c g gn
                       ++ [EvStep (mkLocals x1 (i + 1) time0 c g gn (neg g)
                                     p) (inr (s, x'));
                           EvCheck time0 s gn (i + 1) (inr reason)]
                       ++ bye problem reason)
                  = grad_points
                      (trace st1 ++ head_events problem x1 (i + 1) c g gn
                         ++ [EvStep (mkLocals x1 (i + 1) time0 c g gn
                                       (neg g) p) (inr (s, x'));
                             EvCheck time0 s gn (i + 1) (inr reason)]
                         ++ bye problem reason)).
      { apply Hboth; read_more; reflexivity. }
      now destruct (truthy reason).
Qed.

Lemma pass_timed (time0 : Time) (x : Point) (iter : Z)
    (prev : option float) (st : St) (r : res (bool * Exit)) (st' : St) :
  pass rhs self problem time0 x iter prev st r st' ->
  timed time0 (trace st) -> timed time0 (trace st').
Proof.
  intros Hp [Ht Hs].
  assert (Hadd : forall X,
    time_reads X = [] ->
    (forall l rs, In (l, rs) (step_calls X) -> l_time0 l = time0) ->
    timed time0 (trace st ++ X)).
  { intros X HtX HsX. split.
    - now rewrite time_reads_app, HtX, app_nil_r.
    - intros l rs. rewrite step_calls_app, in_app_iff.
      intros [Hin | Hin]; eauto. }
  inversion Hp; subst; cbn [trace]; apply Hadd;
    try reflexivity; try (intros l rs []);
    try (read_more; reflexivity);
    intros l rs; read_trace; (intros [[= <- <-] | []]; reflexivity).
Qed.

Lemma loop_timed (time0 : Time) (fuel : nat) (x : Point) (iter : Z)
    (prev : option float) (st : St) (r : res Exit) (st' : St) :
  run_loop rhs self problem time0 fuel x iter prev st r st' ->
  timed time0 (trace st) -> timed time0 (trace st').
Proof.
  intros Hrun.
  refine (run_loop_invariant rhs self problem time0
            (fun _ _ st1 => timed time0 (trace st1))
            (fun _ st1 => timed time0 (trace st1))
            _ _ _ _ _ _ _ _ _ Hrun); [auto |].
  intros x1 i p st1 r1 st2 HI Hp.
  pose proof (pass_timed _ _ _ _ _ _ _ Hp HI) as H.
  destruct r1 as [[[] ex] | e |]; auto.
Qed.

End Points.

(** What lines 44-55 leave when they get to the loop. *)
Lemma begun_ready_trace (problem : Problem) (linesearch : option Obj)
    (x : option Point) (w : W) (log : OptLog) (x0 : Point) (t0 : Time)
    (st1 : St) :
  begun problem linesearch x (initial w log) (Ok (x0, t0)) st1 ->
  trace st1 = start_events problem x x0 t0
  /\ first_point problem x w = (inr x0, snd (first_point problem x w))
  /\ t0 = fst (time_time (snd (first_point problem x w))).
Proof.
  intros Hb. inversion Hb as [| | ls x1 w1 t1 w2 Hls Hf Hc]; subst.
  cbn [initial world trace app] in *. rewrite Hf. cbn [fst snd].
  rewrite Hc. auto.
Qed.

(** What lines 44-55 leave when they do not get to the loop. *)
Lemma begun_failed_trace (problem : Problem) (linesearch : option Obj)
    (x : option Point) (w : W) (log : OptLog) (e : exn) (st1 : St) :
  begun problem linesearch x (initial w log) (Exc e) st1 ->
  (exists e' w1, first_point problem x w = (inl e', w1)
                 /\ trace st1 = [EvRand (inl e')])
  \/ (exists x0 w1 t0 w2,
        first_point problem x w = (inr x0, w1)
        /\ time_time w1 = (t0, w2)
        /\ trace st1 = start_events problem x x0 t0).
Proof.
  intros Hb.
  inversion Hb as [e' w1 Hx Hr | x0 w1 t0 w2 Hls Hf Hc | ]; subst;
    cbn [initial world trace app] in *.
  - left. exists e', w1. auto.
  - right. exists x0, w1, t0, w2. auto.
Qed.

(** X6: The starting point is replaced, pass after pass, by the point the
    evaluation of line 77 returned: the points at which a call evaluates the
    cost (lines 62 and 91) are the starting point and then the points that
    line 77 returned, in the order it returned them, with none skipped or
    repeated.  (A call whose [man.rand()] raised evaluates no cost.) *)
Theorem cost_points_follow_the_steps (rhs : Rhs) (linesearch : option Obj)
    (self : Solver) (problem : Problem) (x : option Point) (fuel : nat)
    (w : W) (log : OptLog) :
  let tr :=
    trace (snd (solve_body rhs linesearch self problem x fuel
                  (initial w log))) in
  match fst (first_point problem x w) with
  | inr x0 =>
      cost_points tr
      = firstn (List.length (cost_points tr)) (x0 :: step_points tr)
  | inl _ => cost_points tr = []
  end.
Proof.
  intros tr.
  pose proof (solve_solved rhs self problem linesearch x fuel (initial w log))
    as Hs.
  unfold tr. clear tr.
  destruct (solve_body rhs linesearch self problem x fuel (initial w log))
    as [r st']. cbn [fst snd] in *.
  assert (Hstart : forall x0 t0,
    cost_points (start_events problem x x0 t0) = []
    /\ step_points (start_events problem x x0 t0) = []).
  { intros x0 t0. unfold start_events.
    destruct x; destruct (2 <=? verbosity problem); auto. }
  assert (Hready : forall x0 t0 st1,
    begun problem linesearch x (initial w log) (Ok (x0, t0)) st1 ->
    fst (first_point problem x w) = inr x0
    /\ chained x0 x0 (trace st1)).
  { intros x0 t0 st1 Hb.
    destruct (begun_ready_trace _ _ _ _ _ _ _ _ Hb) as (-> & Hf & _).
    rewrite Hf. split; [reflexivity |]. unfold chained.
    now destruct (Hstart x0 t0) as [-> ->]. }
  inversion Hs as [e st1 Hb
                  | x0 t0 st1 e st2 Hb Hl
                  | x0 t0 st1 st2 Hb Hl
                  | x0 t0 st1 ex st2 r' st3 Hb Hl Hf]; subst.
  - destruct (begun_failed_trace _ _ _ _ _ _ _ Hb)
      as [(e' & w1 & -> & ->) | (x0 & w1 & t0 & w2 & -> & _ & ->)];
      cbn [fst]; [reflexivity |].
    now destruct (Hstart x0 t0) as [-> _].
  - destruct (Hready _ _ _ Hb) as [-> Hch].
    exact (loop_follows _ _ _ _ _ _ _ _ _ _ _ _ Hl Hch).
  - destruct (Hready _ _ _ Hb) as [-> Hch].
    exact (loop_follows _ _ _ _ _ _ _ _ _ _ _ _ Hl Hch).
  - destruct (Hready _ _ _ Hb) as [-> Hch].
    pose proof (loop_follows _ _ _ _ _ _ _ _ _ _ _ _ Hl Hch) as Hex.
    cbn in Hex.
    inversion Hf; subst; cbn [trace].
    + now apply chained_follows with (x := e_x ex).
    + now apply (chained_next x0 (e_x ex)).
    + now apply (chained_next x0 (e_x ex)).
Qed.

(** X7: The gradient is evaluated at the points where the cost was just
    evaluated, in the same order and one for one; the only cost evaluation
    that may have no gradient evaluation after it is the last one (when it
    raised, or when it is the evaluation of line 91). *)
Theorem gradient_follows_cost (rhs : Rhs) (linesearch : option Obj)
    (self : Solver) (problem : Problem) (x : option Point) (fuel : nat)
    (w : W) (log : OptLog) :
  let tr :=
    trace (snd (solve_body rhs linesearch self problem x fuel
                  (initial w log))) in
  exists extra,
    cost_points tr = (grad_points tr ++ extra)%list
    /\ (List.length extra <= 1)%nat.
Proof.
  intros tr.
  pose proof (solve_solved rhs self problem linesearch x fuel (initial w log))
    as Hs.
  unfold tr. clear tr.
  destruct (solve_body rhs linesearch self problem x fuel (initial w log))
    as [r st']. cbn [fst snd] in *.
  assert (Hnone : forall r0 st1,
    begun problem linesearch x (initial w log) r0 st1 ->
    cost_points (trace st1) = [] /\ grad_points (trace st1) = []).
  { intros r0 st1 Hb.
    inversion Hb; subst; cbn [initial trace app]; unfold start_events;
      try destruct x; destruct (2 <=? verbosity problem); auto. }
  assert (Hready : forall r0 st1,
    begun problem linesearch x (initial w log) r0 st1 ->
    cost_points (trace st1) = grad_points (trace st1)).
  { intros r0 st1 Hb. now destruct (Hnone _ _ Hb) as [-> ->]. }
  inversion Hs as [e st1 Hb
                  | x0 t0 st1 e st2 Hb Hl
                  | x0 t0 st1 st2 Hb Hl
                  | x0 t0 st1 ex st2 r' st3 Hb Hl Hf]; subst.
  - exists []. destruct (Hnone _ _ Hb) as [-> ->]. split; [reflexivity |].
    cbn. lia.
  - exact (loop_grad_after_cost _ _ _ _ _ _ _ _ _ _ _ Hl (Hready _ _ Hb)).
  - exact (loop_grad_after_cost _ _ _ _ _ _ _ _ _ _ _ Hl (Hready _ _ Hb)).
  - pose proof (loop_grad_after_cost _ _ _ _ _ _ _ _ _ _ _ Hl
                  (Hready _ _ Hb)) as Heq.
    cbn in Heq.
    inversion Hf; subst; cbn [trace].
    + exists []. rewrite app_nil_r. split; [exact Heq | cbn; lia].
    + apply (grad_after_cost_same _ _ [e_x ex]);
        [exact Heq | reflexivity | cbn; lia].
    + apply (grad_after_cost_same _ _ [e_x ex]);
        [exact Heq | reflexivity | cbn; lia].
Qed.

(** X8: The clock is read once by [solve], at line 49, right after the
    starting point is settled and before anything is printed; that reading
    is the [time0] every pass sees at line 77 (and so, by X1, the one every
    stopping check is given).  A call whose [man.rand()] raised does not
    read the clock. *)
Theorem clock_is_read_once (rhs : Rhs) (linesearch : option Obj)
    (self : Solver) (problem : Problem) (x : option Point) (fuel : nat)
    (w : W) (log : OptLog) :
  let tr :=
    trace (snd (solve_body rhs linesearch self problem x fuel
                  (initial w log))) in
  match fst (first_point problem x w) with
  | inr _ =>
      let t0 := fst (time_time (snd (first_point problem x w))) in
      time_reads tr = [t0]
      /\ forall l r, In (l, r) (step_calls tr) -> l_time0 l = t0
  | inl _ => time_reads tr = []
  end.
Proof.
  intros tr.
  pose proof (solve_solved rhs self problem linesearch x fuel (initial w log))
    as Hs.
  unfold tr. clear tr.
  destruct (solve_body rhs linesearch self problem x fuel (initial w log))
    as [r st']. cbn [fst snd] in *.
  assert (Hstart : forall x0 t0, timed t0 (start_events problem x x0 t0)).
  { intros x0 t0. unfold start_events, timed.
    destruct x; destruct (2 <=? verbosity problem); cbn;
      (split; [reflexivity | intros ? ? []]). }
  assert (Hready : forall x0 t0 st1,
    begun problem linesearch x (initial w log) (Ok (x0, t0)) st1 ->
    fst (first_point problem x w) = inr x0
    /\ t0 = fst (time_time (snd (first_point problem x w)))
    /\ timed t0 (trace st1)).
  { intros x0 t0 st1 Hb.
    destruct (begun_ready_trace _ _ _ _ _ _ _ _ Hb) as (-> & Hf & Ht).
    rewrite Hf at 1. repeat split; auto; apply Hstart. }
  assert (Hfin : forall t0 ex st2 r0 st3,
    finished self problem t0 ex st2 r0 st3 ->
    timed t0 (trace st2) -> timed t0 (trace st3)).
  { intros t0 ex st2 r0 st3 Hf [Ht Hsteps].
    inversion Hf; subst; cbn [trace]; [now split | |];
      (split; [rewrite time_reads_app, Ht; reflexivity |]);
      intros l rs; rewrite step_calls_app, in_app_iff;
      (intros [Hin | []]; eauto). }
  inversion Hs as [e st1 Hb
                  | x0 t0 st1 e st2 Hb Hl
                  | x0 t0 st1 st2 Hb Hl
                  | x0 t0 st1 ex st2 r' st3 Hb Hl Hf]; subst.
  - destruct (begun_failed_trace _ _ _ _ _ _ _ Hb)
      as [(e' & w1 & -> & ->) | (x0 & w1 & t0 & w2 & -> & Hc & ->)];
      cbn [fst snd]; [reflexivity |].
    rewrite Hc. apply Hstart.
  - destruct (Hready _ _ _ Hb) as (-> & -> & Ht).
    exact (loop_timed _ _ _ _ _ _ _ _ _ _ _ Hl Ht).
  - destruct (Hready _ _ _ Hb) as (-> & -> & Ht).
    exact (loop_timed _ _ _ _ _ _ _ _ _ _ _ Hl Ht).
  - destruct (Hready _ _ _ Hb) as (Hx & Ht0 & Ht). rewrite Hx.
    pose proof (loop_timed _ _ _ _ _ _ _ _ _ _ _ Hl Ht) as Ht2.
    pose proof (Hfin _ _ _ _ _ Hf Ht2) as Ht3. now rewrite <- Ht0.
Qed.

(** ** The log *)

Section Log.

Variable rhs : Rhs.
Variable self : Solver.
Variable problem : Problem.

Lemma pass_recorded (time0 : Time) (x : Point) (iter : Z)
    (prev : option float) (st : St) (r : res (bool * Exit)) (st' : St) :
  2 <= _logverbosity self ->
  pass rhs self problem time0 x iter prev st r st' ->
  in_step iter (trace st) ->
  recorded st ->
  recorded st'
  /\ forall b ex, r = Ok (b, ex) -> in_step (e_iter ex) (trace st').
Proof.
  intros Hv Hp Hstep Hrec.
  split; [| intros b ex ->;
            now destruct (pass_in_step _ _ _ _ _ _ _ _ _ _ _ Hp Hstep)].
  destruct Hstep as (Hn & _ & Hc). unfold recorded in *.
  assert (Hrow : forall c gn,
    row_record (Z.of_nat (passes (trace st)) + 1, (c, (x, gn)))
    = mkIterationRecord (iter + 1) x c [("gradnorm", gn)]).
  { intros c gn. unfold row_record. cbn [fst snd]. now rewrite Hn. }
  assert (Hsame : forall X, norms X = [] ->
    log_iterations (optlog st) = map row_record (rows (trace st ++ X))).
  { intros X HX. now rewrite rows_same. }
  assert (Hnext : forall X c gn,
    costs X = [c] -> norms X = [(x, gn)] ->
    log_iterations (logged self (optlog st) (iter + 1) x c gn)
    = map row_record (rows (trace st ++ X))).
  { intros X c gn HcX HnX.
    rewrite logged_on by exact Hv.
    rewrite (rows_next _ _ c x gn) by assumption.
    rewrite map_app, Hrec. cbn [map]. now rewrite Hrow. }
  inversion Hp; subst; cbn [trace optlog].
  - now apply Hsame.
  - now apply Hsame.
  - now apply Hsame.
  - apply Hnext; read_trace; reflexivity.
  - apply Hnext; read_trace; reflexivity.
  - apply Hnext; read_trace; reflexivity.
Qed.

Lemma loop_recorded (time0 : Time) (fuel : nat) (x : Point) (iter : Z)
    (prev : option float) (st : St) (r : res Exit) (st' : St) :
  2 <= _logverbosity self ->
  run_loop rhs self problem time0 fuel x iter prev st r st' ->
  in_step iter (trace st) ->
  recorded st ->
  recorded st'
  /\ forall ex, r = Ok ex -> in_step (e_iter ex) (trace st').
Proof.
  intros Hv Hrun Hstep Hrec.
  refine (run_loop_invariant rhs self problem time0
            (fun _ i st1 => in_step i (trace st1) /\ recorded st1)
            (fun r1 st1 =>
               recorded st1
               /\ forall ex, r1 = Ok ex -> in_step (e_iter ex) (trace st1))
            _ _ _ _ _ _ _ _ _ Hrun _); [| | auto].
  - intros _ i st1 [_ H]. split; [exact H | discriminate].
  - intros x1 i p st1 r1 st2 [HI1 HI2] Hp.
    destruct (pass_recorded _ _ _ _ _ _ _ Hv Hp HI1 HI2) as [H1 H2].
    destruct r1 as [[[] ex] | e |]; auto.
    + split; [exact H1 |]. intros ex' [= <-]. now apply (H2 true).
    + split; [now apply (H2 false) | exact H1].
    + split; [exact H1 | discriminate].
Qed.

End Log.

(** X9: With log verbosity 2 or more, the record appended in a pass holds
    the data of that pass: the log of a call that got to the loop has, per
    pass that got to line 65 and in order, the counter, the point of the
    pass, the cost evaluated there, and the gradient norm under the extra
    field [gradnorm].  A call that did not get to the loop ([man.rand()]
    raised, or [linesearch] unbound) leaves the log it found. *)
Theorem iteration_records_hold_the_pass_data (rhs : Rhs)
    (linesearch : option Obj) (self : Solver) (problem : Problem)
    (x : option Point) (fuel : nat) (w : W) (log : OptLog) :
  2 <= _logverbosity self ->
  let run :=
    solve_body rhs linesearch self problem x fuel (initial w log) in
  match fst (first_point problem x w), linesearch with
  | inr _, Some _ =>
      log_iterations (optlog (snd run))
      = map (fun r =>
               mkIterationRecord (fst r) (fst (snd (snd r))) (fst (snd r))
                 [("gradnorm", snd (snd (snd r)))])
          (rows (trace (snd run)))
  | _, _ => optlog (snd run) = log
  end.
Proof.
  intros Hv run.
  pose proof (solve_solved rhs self problem linesearch x fuel (initial w log))
    as Hs.
  fold run in Hs. clearbody run. destruct run as [r st']. cbn [fst snd] in *.
  change (match fst (first_point problem x w), linesearch with
          | inr _, Some _ => recorded st'
          | _, _ => optlog st' = log
          end).
  assert (Hready : forall x0 t0 st1,
    begun problem linesearch x (initial w log) (Ok (x0, t0)) st1 ->
    (exists ls, linesearch = Some ls)
    /\ fst (first_point problem x w) = inr x0
    /\ in_step 0 (trace st1) /\ recorded st1).
  { intros x0 t0 st1 Hb.
    destruct (begun_in_step _ _ _ _ _ _ _ _ Hb) as (Hstep & Hlog & _).
    destruct (begun_ready_trace _ _ _ _ _ _ _ _ Hb) as (Ht & Hf & _).
    split; [inversion Hb; eauto |]. rewrite Hf.
    split; [reflexivity |]. split; [exact Hstep |].
    unfold recorded. rewrite Hlog. unfold rows.
    destruct Hstep as (Hn & _).
    replace (passes (trace st1)) with 0%nat by lia. reflexivity. }
  inversion Hs as [e st1 Hb
                  | x0 t0 st1 e st2 Hb Hl
                  | x0 t0 st1 st2 Hb Hl
                  | x0 t0 st1 ex st2 r' st3 Hb Hl Hf]; subst.
  - inversion Hb as [e' w1 Hx Hr | x0 w1 t0 w2 Hls Hf Hc | ]; subst;
      cbn [initial world optlog first_point] in *.
    + now rewrite Hr.
    + now destruct (fst (first_point problem x w)).
  - destruct (Hready _ _ _ Hb) as ([ls ->] & -> & Hstep & Hrec).
    now destruct (loop_recorded _ _ _ _ _ _ _ _ _ _ _ Hv Hl Hstep Hrec).
  - destruct (Hready _ _ _ Hb) as ([ls ->] & -> & Hstep & Hrec).
    now destruct (loop_recorded _ _ _ _ _ _ _ _ _ _ _ Hv Hl Hstep Hrec).
  - destruct (Hready _ _ _ Hb) as ([ls ->] & -> & Hstep & Hrec).
    destruct (loop_recorded _ _ _ _ _ _ _ _ _ _ _ Hv Hl Hstep Hrec)
      as [Hrec2 Hstep2].
    destruct (Hstep2 _ eq_refl) as (_ & _ & Hc).
    unfold recorded in *.
    inversion Hf; subst; cbn [trace optlog closed log_iterations];
      rewrite ?rows_same by (exact Hc || reflexivity); exact Hrec2.
Qed.

(** ** A stopping check that goes by the counter *)

Section Stops.

Variable rhs : Rhs.
Variable self : Solver.
Variable problem : Problem.
Variable N : Z.

Hypothesis cost_returns :
  forall x w, exists c, fst (cost problem x w) = inr c.
Hypothesis grad_returns :
  forall x w, exists g, fst (grad problem x w) = inr g.
Hypothesis norm_returns :
  forall x g w, exists gn, fst (norm (manifold problem) x g w) = inr gn.
Hypothesis step_returns :
  forall l w, exists sx, fst (rhs self problem l w) = inr sx.
Hypothesis check_by_counter :
  forall t s gn i w,
    exists r, fst (_check_stopping_criterion self t s gn i w) = inr r
              /\ (truthy r = true <-> N <= i).

Lemma pass_by_counter (time0 : Time) (x : Point) (iter : Z)
    (prev : option float) (st : St) (r : res (bool * Exit)) (st' : St) :
  pass rhs self problem time0 x iter prev st r st' ->
  exists b ex, r = Ok (b, ex) /\ (b = true <-> N <= iter + 1).
Proof.
  intros Hp.
  inversion Hp; subst;
    repeat match goal with
      | H : cost problem ?x ?w = (inl _, _) |- _ =>
          destruct (cost_returns x w) as [? Hx]; rewrite H in Hx;
          discriminate Hx
      | H : grad problem ?x ?w = (inl _, _) |- _ =>
          destruct (grad_returns x w) as [? Hx]; rewrite H in Hx;
          discriminate Hx
      | H : norm _ ?x ?g ?w = (inl _, _) |- _ =>
          destruct (norm_returns x g w) as [? Hx]; rewrite H in Hx;
          discriminate Hx
      | H : rhs _ _ ?l ?w = (inl _, _) |- _ =>
          destruct (step_returns l w) as [? Hx]; rewrite H in Hx;
          discriminate Hx
      | H : _check_stopping_criterion _ ?t ?s ?gn ?i ?w = (inl _, _) |- _ =>
          destruct (check_by_counter t s gn i w) as [? [Hx _]];
          rewrite H in Hx; discriminate Hx
      end.
  match goal with
  | H : _check_stopping_criterion _ ?t ?s ?gn ?i ?w = (inr _, _) |- _ =>
      destruct (check_by_counter t s gn i w) as [r0 [Hx Hr0]];
      rewrite H in Hx; cbn [fst] in Hx; injection Hx as <-
  end.
  eexists _, _. split; [reflexivity | exact Hr0].
Qed.

Lemma loop_by_counter (time0 : Time) (fuel : nat) (x : Point) (iter : Z)
    (prev : option float) (st : St) (r : res Exit) (st' : St) :
  run_loop rhs self problem time0 fuel x iter prev st r st' ->
  in_step iter (trace st) ->
  iter < N -> N - iter <= Z.of_nat fuel ->
  exists ex, r = Ok ex /\ in_step N (trace st').
Proof.
  intros Hrun.
  induction Hrun as [x iter prev st
                    |fuel x iter prev st e st' Hp
                    |fuel x iter prev st ex st' Hp
                    |fuel x iter prev st ex st' r st'' Hp Hrun IH];
    intros Hstep Hlt Hfuel.
  - cbn in Hfuel. lia.
  - apply pass_by_counter in Hp. destruct Hp as (b & ex & Hex & _).
    discriminate.
  - destruct (pass_in_step _ _ _ _ _ _ _ _ _ _ _ Hp Hstep) as [Hs Hi].
    apply pass_by_counter in Hp.
    destruct Hp as (b & ex' & [= <- <-] & Hb).
    exists ex. split; [reflexivity |].
    replace N with (e_iter ex); [exact Hs |].
    destruct Hb as [Hb _]. specialize (Hb eq_refl). lia.
  - destruct (pass_in_step _ _ _ _ _ _ _ _ _ _ _ Hp Hstep) as [Hs Hi].
    apply pass_by_counter in Hp.
    destruct Hp as (b & ex' & [= <- <-] & Hb).
    apply IH; [exact Hs | | lia].
    rewrite Hi. destruct (Z.lt_ge_cases (iter + 1) N) as [Hc | Hc];
      [exact Hc |].
    destruct Hb as [_ Hb]. discriminate (Hb Hc).
Qed.

End Stops.

(** X11: When no collaborator raises and the stopping check gives a reason
    exactly from counter [N] on (as a check on the number of iterations
    does), a call with [linesearch] bound that is given at least [N] passes
    returns, after exactly [N] passes. *)
Theorem returns_when_the_check_stops_at_a_counter (rhs : Rhs)
    (self : Solver) (problem : Problem) (x : option Point) (fuel : nat)
    (w : W) (log : OptLog) (ls : Obj) (N : Z) :
  (forall x w, exists c, fst (cost problem x w) = inr c) ->
  (forall x w, exists g, fst (grad problem x w) = inr g) ->
  (forall x g w, exists gn,
      fst (norm (manifold problem) x g w) = inr gn) ->
  (forall l w, exists sx, fst (rhs self problem l w) = inr sx) ->
  (forall t s gn i w,
      exists r, fst (_check_stopping_criterion self t s gn i w) = inr r
                /\ (truthy r = true <-> N <= i)) ->
  (exists x0, fst (first_point problem x w) = inr x0) ->
  1 <= N -> N <= Z.of_nat fuel ->
  let run :=
    solve_body rhs (Some ls) self problem x fuel (initial w log) in
  (exists res, fst run = Ok res)
  /\ Z.of_nat (passes (trace (snd run))) = N.
Proof.
  intros Hc Hg Hn Hs Hk [x0 Hx0] HN Hfuel run.
  pose proof (solve_solved rhs self problem (Some ls) x fuel (initial w log))
    as Hsol.
  fold run in Hsol. clearbody run. destruct run as [r st'].
  cbn [fst snd] in *.
  assert (Hloop : forall x1 t0 st1 r1 st2,
    begun problem (Some ls) x (initial w log) (Ok (x1, t0)) st1 ->
    run_loop rhs self problem t0 fuel x1 0 None st1 r1 st2 ->
    exists ex, r1 = Ok ex /\ in_step N (trace st2)).
  { intros x1 t0 st1 r1 st2 Hb Hl.
    destruct (begun_in_step _ _ _ _ _ _ _ _ Hb) as (Hstep & _).
    apply (loop_by_counter rhs self problem N Hc Hg Hn Hs Hk
             _ _ _ _ _ _ _ _ Hl Hstep); lia. }
  inversion Hsol as [e st1 Hb
                    | x1 t0 st1 e st2 Hb Hl
                    | x1 t0 st1 st2 Hb Hl
                    | x1 t0 st1 ex st2 r' st3 Hb Hl Hf]; subst.
  - inversion Hb as [e' w1 Hx Hr | x1 w1 t0 w2 Hls | ]; subst.
    + cbn [first_point initial world] in *. rewrite Hr in Hx0.
      discriminate Hx0.
    + discriminate Hls.
  - destruct (Hloop _ _ _ _ _ Hb Hl) as (ex & Hr & _). discriminate Hr.
  - destruct (Hloop _ _ _ _ _ Hb Hl) as (ex & Hr & _). discriminate Hr.
  - destruct (Hloop _ _ _ _ _ Hb Hl) as (ex' & _ & (Hp & _)).
    revert Hp.
    inversion Hf as [Hv | e w1 Hv Hcost | fx w1 now w2 Hv Hcost Hclk]; subst;
      cbn [trace]; intros Hp.
    + split; [eauto | exact Hp].
    + destruct (Hc (e_x ex) (world st2)) as [c Hcc].
      rewrite Hcost in Hcc. discriminate Hcc.
    + split; [eauto |]. rewrite passes_app.
      replace (passes [EvCost (e_x ex) (inr fx)]) with 0%nat by reflexivity.
      lia.
Qed.

End Facts.

(** ** The theorems at work on the small instance *)

#[local] Existing Instance Toy.values.

Lemma descent_direction_is_negated_gradient_witness :
  In (Toy.first_locals, inr (1, 4)) (step_calls (trace (snd Toy.run_logged)))
  /\ (l_desc_dir Toy.first_locals = neg (l_grad Toy.first_locals)
      /\ In (l_x Toy.first_locals, inr (l_grad Toy.first_locals))
            (grad_calls (trace (snd Toy.run_logged)))).
Proof.
  split.
  - vm_compute. left. reflexivity.
  - apply (descent_direction_is_negated_gradient Toy.quarter_step
             (Some "ls") (Toy.solver 2 (Toy.only_maxiter 3)) (Toy.square 2)
             None 10 Toy.w0 Toy.log0 Toy.first_locals (inr (1, 4))).
    vm_compute. left. reflexivity.
Defined.

Lemma iteration_records_count_from_one_witness :
  2 <= _logverbosity (Toy.solver 2 (Toy.only_maxiter 3))
  /\ map rec_iteration (log_iterations (optlog (snd Toy.run_logged)))
     = [1; 2; 3]
  /\ List.length (log_iterations (optlog (snd Toy.run_logged))) = 3%nat
  /\ passes (trace (snd Toy.run_logged)) = 3%nat
  /\ exists xf t,
       Toy.result_logged = RPair xf (optlog (snd Toy.run_logged))
       /\ log_final (optlog (snd Toy.run_logged)) = Some t
       /\ fin_iteration t = 3.
Proof.
  split; [vm_compute; discriminate |].
  destruct (iteration_records_count_from_one Toy.quarter_step (Some "ls")
              (Toy.solver 2 (Toy.only_maxiter 3)) (Toy.square 2) None 10
              Toy.w0 Toy.log0) as (Hrec & _ & Hret).
  - vm_compute. discriminate.
  - destruct Hrec as [[Hidx Hlen] | [[e He] _]];
      [| vm_compute in He; discriminate He].
    destruct (Hret Toy.result_logged) as (xf & t & Hres & Hfin & Hit & _).
    + vm_compute. reflexivity.
    + split; [exact Hidx |]. split; [vm_compute; reflexivity |].
      split; [symmetry; exact Hlen |].
      exists xf, t. split; [exact Hres |]. split; [exact Hfin |].
      rewrite Hit. vm_compute. reflexivity.
Defined.


Lemma final_cost_is_one_more_evaluation_witness :
  1 <= _logverbosity (Toy.solver 2 (Toy.only_maxiter 3))
  /\ fst Toy.run_logged = Ok Toy.result_logged
  /\ exists (pre : list Event) (xf : Point) (fx : float) (lg : OptLog),
       trace (snd Toy.run_logged) = (pre ++ [EvCost xf (inr fx)])%list
       /\ Toy.result_logged = RPair xf lg
       /\ option_map fin_cost (log_final lg) = Some fx
       /\ option_map fin_iteration (log_final lg)
          = Some (Z.of_nat (passes (trace (snd Toy.run_logged))))
       /\ List.length (cost_calls pre) = passes (trace (snd Toy.run_logged))
       /\ List.length (cost_calls (trace (snd Toy.run_logged)))
          = S (passes (trace (snd Toy.run_logged))).
Proof.
  split; [vm_compute; discriminate |]. split; [vm_compute; reflexivity |].
  apply (final_cost_is_one_more_evaluation Toy.quarter_step (Some "ls")
           (Toy.solver 2 (Toy.only_maxiter 3)) (Toy.square 2) None 10
           Toy.w0 Toy.log0 Toy.result_logged).
  - vm_compute. discriminate.
  - vm_compute. reflexivity.
Defined.


Lemma third_gradient_raising_aborts_witness :
  nth_error (grad_calls (trace (snd Toy.run_grad_fails))) 2
  = Some (2, inl "ValueError")
  /\ (fst Toy.run_grad_fails = Exc (Propagated "ValueError")
      /\ List.length (grad_calls (trace (snd Toy.run_grad_fails))) = 3%nat
      /\ passes (trace (snd Toy.run_grad_fails)) = 2%nat
      /\ List.length (log_iterations (optlog (snd Toy.run_grad_fails)))
         = if 2 <=? _logverbosity (Toy.solver 2 (Toy.only_maxiter 5))
           then 2%nat else 0%nat).
Proof.
  split; [vm_compute; reflexivity |].
  apply (third_gradient_raising_aborts Toy.quarter_step (Some "ls")
           (Toy.solver 2 (Toy.only_maxiter 5))
           (Toy.square_grad_fails_third 2) (Some 8) 10 Toy.w0 Toy.log0 2
           "ValueError").
  vm_compute. reflexivity.
Defined.

Lemma unreachable_thresholds_are_not_rejected_witness :
  (forall ls,
      let run :=
        solve_body Toy.quarter_step (Some ls) (Toy.solver 0 Toy.all_disabled)
          (Toy.square 0) (Some 4) 25 Toy.st0 in
      fst run = Running /\ passes (trace (snd run)) = 25%nat)
  /\ fst (Toy.run_unbound Toy.all_disabled) = Exc (NameError "linesearch").
Proof.
  apply (unreachable_thresholds_are_not_rejected Toy.quarter_step
           (Toy.solver 0 Toy.all_disabled) (Toy.square 0) (Some 4) 25 Toy.w0
           Toy.log0).
  - intros x w. eexists. reflexivity.
  - intros x w. eexists. reflexivity.
  - intros x g w. eexists. reflexivity.
  - intros l w. eexists. reflexivity.
  - intros t s gn i w. eexists. split; reflexivity.
  - eexists. reflexivity.
Defined.

(** ** Where the file and its description part *)

(** C1: the file as written has nothing at line 77 to evaluate: the module
    is rejected, and with line 77 filled in the call still ends at line 55
    before any step is taken. *)
Lemma no_step_size_rule_is_invoked :
  @import_module Toy.values as_written = inl SyntaxError
  /\ fst (Toy.run_unbound (Toy.only_maxiter 3))
     = Exc (NameError "linesearch")
  /\ step_calls (trace (snd (Toy.run_unbound (Toy.only_maxiter 3)))) = [].
Proof. repeat split. Qed.

(** C2 fails: with no threshold configured the call is not rejected.  It
    makes all the 25 passes it is given and is still in the loop; and where
    the call does end at once, with [linesearch] unbound, the error is the
    [NameError] that a configuration with a reachable threshold gets as
    well, not a [ConfigurationError]. *)
Lemma unreachable_thresholds_counterexample :
  fst Toy.run_unstoppable = Running
  /\ passes (trace (snd Toy.run_unstoppable)) = 25%nat
  /\ ~ (exists e, fst Toy.run_unstoppable = Exc e)
  /\ fst (Toy.run_unbound Toy.all_disabled)
     <> Exc (Propagated "ConfigurationError")
  /\ fst (Toy.run_unbound Toy.all_disabled)
     = fst (Toy.run_unbound (Toy.only_maxiter 3)).
Proof.
  split; [vm_compute; reflexivity |]. split; [vm_compute; reflexivity |].
  split; [intros [e He]; vm_compute in He; discriminate He |].
  split; [vm_compute; discriminate | vm_compute; reflexivity].
Qed.


(** ** The further theorems at work on the small instance *)

Lemma quiet_below_verbosity_two_witness :
  verbosity (Toy.square 1) < 2
  /\ printed (trace (snd Toy.run_quiet))
     = if 1 <=? verbosity (Toy.square 1)
       then farewells (check_results (trace (snd Toy.run_quiet)))
       else [].
Proof.
  split; [vm_compute; reflexivity |].
  apply (quiet_below_verbosity_two Toy.quarter_step (Some "ls")
           (Toy.solver 1 (Toy.only_maxiter 3)) (Toy.square 1) (Some 8) 10
           Toy.w0 Toy.log0).
  vm_compute. reflexivity.
Defined.

Lemma exceptions_propagate_from_the_last_call_witness :
  fst Toy.run_cost_fails = Exc (Propagated "ValueError")
  /\ world (snd Toy.run_cost_fails) = Toy.mkWorld 101 0
  /\ cost_calls (trace (snd Toy.run_cost_fails)) = [(8, inl "ValueError")].
Proof.
  refine (proj2 (exceptions_propagate_from_the_last_call Toy.quarter_step
                   (Some "ls") (Toy.solver 2 (Toy.only_maxiter 5))
                   (Toy.square_cost_fails 2) (Some 8) 10 Toy.w0 Toy.log0)
            "ls" 8 _ _ "ValueError" _ eq_refl eq_refl _ _ _).
  - discriminate.
  - vm_compute. reflexivity.
  - vm_compute. reflexivity.
Defined.

Lemma iteration_records_hold_the_pass_data_witness :
  2 <= _logverbosity (Toy.solver 2 (Toy.only_maxiter 3))
  /\ log_iterations (optlog (snd Toy.run_logged))
     = map (fun r =>
              mkIterationRecord (fst r) (fst (snd (snd r))) (fst (snd r))
                [("gradnorm", snd (snd (snd r)))])
         (rows (trace (snd Toy.run_logged))).
Proof.
  split; [vm_compute; discriminate |].
  apply (iteration_records_hold_the_pass_data Toy.quarter_step (Some "ls")
           (Toy.solver 2 (Toy.only_maxiter 3)) (Toy.square 2) None 10
           Toy.w0 Toy.log0).
  vm_compute. discriminate.
Defined.

Lemma returns_when_the_check_stops_at_a_counter_witness :
  (exists res, fst Toy.run_quiet = Ok res)
  /\ Z.of_nat (passes (trace (snd Toy.run_quiet))) = 3.
Proof.
  apply (returns_when_the_check_stops_at_a_counter Toy.quarter_step
           (Toy.solver 1 (Toy.only_maxiter 3)) (Toy.square 1) (Some 8) 10
           Toy.w0 Toy.log0 "ls" 3).
  - intros x w. eexists. reflexivity.
  - intros x w. eexists. reflexivity.
  - intros x g w. eexists. reflexivity.
  - intros l w. eexists. reflexivity.
  - intros t s gn i w. cbn. unfold Toy.policy. cbn.
    destruct (3 <=? i) eqn:Hi; eexists; (split; [reflexivity |]); cbn.
    + apply Z.leb_le in Hi. split; [intros _; exact Hi | reflexivity].
    + apply Z.leb_gt in Hi. split; [discriminate | lia].
  - eexists. reflexivity.
  - lia.
  - cbn. lia.
Defined.

